(** * Echo-Sight dashboard: the telemetry session core

    A shallow embedding of [frontend/src/pages/dashboard-page.tsx]: the
    payload normalizer ([clamp], [normalizeBox], [applyPayload]), the bounded
    event log ([addLog]), the reconnecting WebSocket session ([connect] and
    the socket handlers), the three operator actions ([handleAnalyzeNow],
    [handleHapticPulse], [handleSpeakPrompt]) and the URLs of the backend;
    of the log of the page's earlier revision ([unnamed/part_000], 60
    entries); and of the haptic step of the Arduino sketch
    ([unnamed/part_001]).

    Where the definitions come from, by line of [dashboard-page.tsx]:
    - [clamp] 36-38, [normalizeBox] 40-49, [formatTime] 51-54,
      [apiBaseUrl] 56-62;
    - [initialState] 92-98, [videoUrl], [wsUrl] and [portLabel] 101-103,
      [addLog] 105-114, [applyPayload] with [nextVoice], [nextHaptic] and
      [nextDetections] 116-138;
    - the stream effect 145-202: [clearTimers] 151-154, [connect] 156-193,
      [onopen] 161-170 with its [keepaliveTick] 165-169, [onmessage]
      172-179, [onclose] 181-188, [onerror] 190-192, [cleanup] 197-201;
    - [handleAnalyzeNow] 210-222, [handleHapticPulse] 224-238,
      [handleSpeakPrompt] with [speakText] 240-262, and [resume], the code
      of the three after each of their [await]s;
    - [onClick] and [disabled], the four buttons, 361-392.
    [Earlier.addLog] is lines 91-100 of [part_000] and
    [Sketch.hapticFeedback] lines 61-75 of [part_001].

    Modelling conventions.
    - A JavaScript [number] is [NaN], an infinity, or a finite value kept as
      an exact rational.  Every binary64 value is such a rational, and the
      operations the page uses ([Math.round], [Math.min], [Math.max], the
      comparisons) are exact on binary64, so what is proved for all
      rationals holds for all doubles.  Negative zero is not distinguished
      from zero.
    - A JavaScript string is its sequence of UTF-16 code units.
    - Payloads are modelled at their declared TypeScript type
      [VisionPayload]; an optional field is an [option], [None] when the
      field is absent or [null].  [Number(v)] on a field of type [number] is
      the identity, so a wire value that does not coerce to a number is
      represented by the number it coerces to, [NaN].
    - Built-ins whose result depends on the engine, the locale or the text
      decoded ([toLowerCase], [toLocaleTimeString], [JSON.parse],
      [encodeURIComponent], the printing of a fraction) are parameters of
      the model; the clock and the random generator are read per event.
    - React state setters take effect at once and a render follows every
      event, so a handler reads the current state; an [await] is a
      suspension point, and the continuation of a suspended handler is
      resumed by a settlement supplied by the environment. *)

From Stdlib Require Import String Ascii DecimalString.
From Stdlib Require Import ZArith QArith Qround List Bool Lia.
Import ListNotations.

Local Open Scope Z_scope.

(** ** Numbers *)

Inductive number : Type :=
| NaN
| NegInf
| PosInf
| Fin (q : Q).

Definition Number_isNaN (x : number) : bool :=
  match x with NaN => true | _ => false end.

(** [Math.min(a, b)] and [Math.max(a, b)]: [NaN] is contagious. *)
Definition Math_min (a b : number) : number :=
  match a, b with
  | NaN, _ | _, NaN => NaN
  | NegInf, _ | _, NegInf => NegInf
  | PosInf, x | x, PosInf => x
  | Fin p, Fin q => if Qle_bool p q then Fin p else Fin q
  end.

Definition Math_max (a b : number) : number :=
  match a, b with
  | NaN, _ | _, NaN => NaN
  | PosInf, _ | _, PosInf => PosInf
  | NegInf, x | x, NegInf => x
  | Fin p, Fin q => if Qle_bool p q then Fin q else Fin p
  end.

(** [Math.round(x)]: the nearest integer, ties towards +infinity. *)
Definition Math_round (x : number) : number :=
  match x with
  | Fin q => Fin (inject_Z (Qfloor (q + (1 # 2))))
  | _ => x
  end.

(** [Number(v)] at a value that already is a [number]. *)
Definition Number (v : number) : number := v.

(** The relational operator [a <= b]; every comparison with [NaN] is false. *)
Definition num_le (a b : number) : bool :=
  match a, b with
  | NaN, _ | _, NaN => false
  | NegInf, _ => true
  | _, PosInf => true
  | _, NegInf => false
  | PosInf, _ => false
  | Fin p, Fin q => Qle_bool p q
  end.

(** [a * b], used at [tsSeconds * 1000] only. *)
Definition num_mul (a b : number) : number :=
  match a, b with
  | NaN, _ | _, NaN => NaN
  | Fin p, Fin q => Fin (p * q)
  | Fin p, PosInf | PosInf, Fin p =>
      if Qeq_bool p 0 then NaN else if Qle_bool 0 p then PosInf else NegInf
  | Fin p, NegInf | NegInf, Fin p =>
      if Qeq_bool p 0 then NaN else if Qle_bool 0 p then NegInf else PosInf
  | PosInf, PosInf | NegInf, NegInf => PosInf
  | PosInf, NegInf | NegInf, PosInf => NaN
  end.

(** Truthiness of a number: [0] and [NaN] are falsy. *)
Definition num_truthy (x : number) : bool :=
  match x with
  | NaN => false
  | Fin q => negb (Qeq_bool q 0)
  | _ => true
  end.

Definition num (z : Z) : number := Fin (inject_Z z).

(** [function clamp(value, min, max)] *)
Definition clamp (value min max : number) : number :=
  Math_max min (Math_min max value).

(** ** The box normalizer *)

Definition Box : Type := (number * number * number * number)%type.

(** [function normalizeBox(raw?: number[])].  [!raw] holds of an absent
    array only: every array, the empty one too, is truthy. *)
Definition normalizeBox (raw : option (list number)) : option Box :=
  match raw with
  | None => None
  | Some raw =>
      if negb (Nat.eqb (length raw) 4) then None
      else
        let values :=
          map (fun value => clamp (Math_round (Number value)) (num 0) (num 1000)) raw in
        match values with
        | [ymin; xmin; ymax; xmax] =>
            if Number_isNaN ymin || Number_isNaN xmin
               || Number_isNaN ymax || Number_isNaN xmax
            then None
            else if num_le ymax ymin || num_le xmax xmin then None
            else Some (ymin, xmin, ymax, xmax)
        | _ => None
        end
  end.

(** ** Strings *)

Definition jsstring : Type := list N.

(** The code units of an ASCII literal. *)
Definition str (s : string) : jsstring :=
  map N_of_ascii (list_ascii_of_string s).

(** WhiteSpace and LineTerminator code points of ECMAScript, the ones
    [String.prototype.trim] strips: TAB, LF, VT, FF, CR, SP, NBSP, U+1680,
    U+2000..U+200A, U+2028, U+2029, U+202F, U+205F, U+3000, U+FEFF. *)
Definition isWhiteSpace (c : N) : bool :=
  (((9 <=? c) && (c <=? 13)) || (c =? 32) || (c =? 160) || (c =? 5760)
   || ((8192 <=? c) && (c <=? 8202)) || (c =? 8232) || (c =? 8233)
   || (c =? 8239) || (c =? 8287) || (c =? 12288) || (c =? 65279))%N.

Fixpoint trimStart (s : jsstring) : jsstring :=
  match s with
  | c :: s' => if isWhiteSpace c then trimStart s' else s
  | [] => []
  end.

Definition trimEnd (s : jsstring) : jsstring := rev (trimStart (rev s)).

(** [s.trim()] *)
Definition trim (s : jsstring) : jsstring := trimEnd (trimStart s).

(** Decimal digits of an integer, as in a template literal. *)
Definition Z_toString (z : Z) : jsstring :=
  str (NilZero.string_of_int (Z.to_int z)).

(** ** Data model *)

Record Detection : Type := mkDetection {
  label : jsstring;
  box : Box
}.

Module Raw.
(** An element of [VisionPayload.detections]: [{ label?: string; box?: number[] }] *)
Record t : Type := mk {
  label : option jsstring;
  box : option (list number)
}.
End Raw.

Module Payload.
(** [type VisionPayload] *)
Record t : Type := mk {
  voice_prompt : option jsstring;
  detections : option (list Raw.t);
  haptic_intensity : option number;
  ts : option number
}.
End Payload.

Record LogEntry : Type := mkLogEntry {
  id : Z;
  time : jsstring;
  text : jsstring
}.

Definition MAX_LOG_ENTRIES : nat := 80.

(** The component state of [DashboardPage], one field per [useState]. *)
Record State : Type := mkState {
  connected : bool;
  voicePrompt : jsstring;
  hapticIntensity : number;
  detections : list Detection;
  eventLog : list LogEntry;
  videoReady : bool;
  actionBusy : option jsstring
}.

Definition initialState : State :=
  {| connected := false;
     voicePrompt := str "Waiting for analysis";
     hapticIntensity := num 0;
     detections := [];
     eventLog := [];
     videoReady := false;
     actionBusy := None |}.

Definition setConnected (v : bool) (s : State) : State :=
  mkState v (voicePrompt s) (hapticIntensity s) (detections s) (eventLog s)
          (videoReady s) (actionBusy s).

Definition setVoicePrompt (v : jsstring) (s : State) : State :=
  mkState (connected s) v (hapticIntensity s) (detections s) (eventLog s)
          (videoReady s) (actionBusy s).

Definition setHapticIntensity (v : number) (s : State) : State :=
  mkState (connected s) (voicePrompt s) v (detections s) (eventLog s)
          (videoReady s) (actionBusy s).

Definition setDetections (v : list Detection) (s : State) : State :=
  mkState (connected s) (voicePrompt s) (hapticIntensity s) v (eventLog s)
          (videoReady s) (actionBusy s).

(** [setEventLog] is only ever called with an updater function. *)
Definition setEventLog (f : list LogEntry -> list LogEntry) (s : State) : State :=
  mkState (connected s) (voicePrompt s) (hapticIntensity s) (detections s)
          (f (eventLog s)) (videoReady s) (actionBusy s).

Definition setVideoReady (v : bool) (s : State) : State :=
  mkState (connected s) (voicePrompt s) (hapticIntensity s) (detections s)
          (eventLog s) v (actionBusy s).

Definition setActionBusy (v : option jsstring) (s : State) : State :=
  mkState (connected s) (voicePrompt s) (hapticIntensity s) (detections s)
          (eventLog s) (videoReady s) v.

(** The telemetry snapshot: prompt, intensity and detections. *)
Definition snapshot (s : State) : jsstring * number * list Detection :=
  (voicePrompt s, hapticIntensity s, detections s).

(** What a handler reads from the clock and the random generator when it
    builds a log entry. *)
Record Readings : Type := mkReadings {
  Date_now : Z;
  Math_random : Q
}.

(** A thrown value: an [Error] with its message, or anything else. *)
Inductive thrown : Type :=
| ErrorObject (message : jsstring)
| OtherValue.

(** How a piece of synchronous code ends: normally with a value, or by
    throwing. *)
Inductive completion (A : Type) : Type :=
| Normal (a : A)
| Throw (e : thrown).

Arguments Normal {A} a.
Arguments Throw {A} e.

Definition bind {A B : Type} (c : completion A) (k : A -> completion B)
  : completion B :=
  match c with
  | Normal a => k a
  | Throw e => Throw e
  end.

(** [try { body } catch { handler }] *)
Definition tryCatch {A : Type} (body : completion A) (handler : thrown -> completion A)
  : completion A :=
  match body with
  | Normal a => Normal a
  | Throw e => handler e
  end.

(** [payload.voice_prompt?.trim() || 'Path is clear']: the empty string is
    falsy. *)
Definition nextVoice (payload : Payload.t) : jsstring :=
  match Payload.voice_prompt payload with
  | None => str "Path is clear"
  | Some v => match trim v with
              | [] => str "Path is clear"
              | t => t
              end
  end.

(** [clamp(Math.round(Number(payload.haptic_intensity ?? 0)), 0, 255)] *)
Definition nextHaptic (payload : Payload.t) : number :=
  clamp
    (Math_round
       (Number (match Payload.haptic_intensity payload with
                | Some v => v
                | None => num 0
                end)))
    (num 0) (num 255).

Section Platform.

(** Built-ins whose result depends on the engine or the locale. *)
Variable toLowerCase : jsstring -> jsstring.
(** [new Date(ms).toLocaleTimeString()] *)
Variable toLocaleTimeString : number -> jsstring.
(** [Number::toString] outside the integers below 2^53: the shortest
    decimal that reads back as the same binary64. *)
Variable fractionToString : Q -> jsstring.
(** [JSON.parse(data) as VisionPayload]; it throws on a text that is not
    JSON. *)
Variable JSON_parse : jsstring -> completion Payload.t.
(** [encodeURIComponent(text)]; it throws a [URIError] on a lone surrogate. *)
Variable encodeURIComponent : jsstring -> completion jsstring.

(** A number inside a template literal: an integer below 2^53 prints as
    its decimal digits. *)
Definition Number_toString (x : number) : jsstring :=
  match x with
  | NaN => str "NaN"
  | PosInf => str "Infinity"
  | NegInf => str "-Infinity"
  | Fin q =>
      let r := Qred q in
      if (Pos.eqb (Qden r) 1 && (Z.abs (Qnum r) <? 2 ^ 53))%bool
      then Z_toString (Qnum r)
      else fractionToString q
  end.

(** [function formatTime(tsSeconds?: number)] *)
Definition formatTime (r : Readings) (tsSeconds : option number) : jsstring :=
  let stamp :=
    match tsSeconds with
    | Some t => if num_truthy t then num_mul t (num 1000) else num (Date_now r)
    | None => num (Date_now r)
    end in
  toLocaleTimeString stamp.

(** The entry [addLog] builds. *)
Definition newEntry (r : Readings) (text : jsstring) (tsSeconds : option number)
  : LogEntry :=
  {| id := Date_now r + Qfloor (Math_random r * 10000);
     time := formatTime r tsSeconds;
     text := text |}.

(** [addLog] with the capacity as a parameter:
    [[entry, ...current].slice(0, cap)]. *)
Definition addLogUpTo (cap : nat) (r : Readings) (text : jsstring)
           (tsSeconds : option number) (s : State) : State :=
  setEventLog (fun current => firstn cap (newEntry r text tsSeconds :: current)) s.

Definition addLog : Readings -> jsstring -> option number -> State -> State :=
  addLogUpTo MAX_LOG_ENTRIES.

(** The [rawDetections.map(...).filter(...)] of [applyPayload]. *)
Definition normalizeDetection (det : Raw.t) : option Detection :=
  match normalizeBox (Raw.box det) with
  | None => None
  | Some box =>
      Some {| label :=
                toLowerCase match Raw.label det with
                            | Some (c :: l) => c :: l
                            | _ => str "obstacle"
                            end;
              box := box |}
  end.

Fixpoint filterNonNull (l : list (option Detection)) : list Detection :=
  match l with
  | [] => []
  | Some d :: l' => d :: filterNonNull l'
  | None :: l' => filterNonNull l'
  end.

Definition nextDetections (payload : Payload.t) : list Detection :=
  let rawDetections :=
    match Payload.detections payload with
    | Some l => l
    | None => []
    end in
  filterNonNull (map normalizeDetection rawDetections).

(** [applyPayload(payload, source = 'vision stream')] *)
Definition applyPayload (r : Readings) (payload : Payload.t) (source : jsstring)
           (s : State) : State :=
  let s := setVoicePrompt (nextVoice payload) s in
  let s := setHapticIntensity (nextHaptic payload) s in
  let s := setDetections (nextDetections payload) s in
  addLog r (source ++ str ": " ++ nextVoice payload ++ str " | haptic="
                   ++ Number_toString (nextHaptic payload))
         (Payload.ts payload) s.

(** *** The browser around the component *)

(** [WebSocket.readyState] *)
Inductive ReadyState : Type := CONNECTING | OPEN | CLOSING | CLOSED.

(** The backend calls of the three actions:
    [GET /vision/analyze-current], [GET /haptic/send?intensity=...],
    [GET /tts?text=...]. *)
Inductive Request : Type :=
| AnalyzeCurrent
| HapticSend (intensity : number)
| Tts (query : jsstring).

(** The [await]s of the three async handlers: where a handler that has been
    started can be suspended. *)
Inductive Pending : Type :=
| AnalyzeFetch
| AnalyzeJson
| HapticFetch (clamped : number)
| HapticJson (clamped : number)
| SpeakFetch
| SpeakBlob
| SpeakPlay.

(** How an awaited promise settles: rejected; [fetch] fulfilled with a
    response of some status; [response.json()] fulfilled with a
    [VisionPayload] (analyze) or with [{ success?, message? }] (haptic);
    [response.blob()] fulfilled; [audio.play()] fulfilled. *)
Inductive Settlement : Type :=
| Rejected (e : thrown)
| Responded (status : Z)
| AnalyzeBody (payload : Payload.t)
| HapticBody (success : option bool) (message : option jsstring)
| BlobRead
| Played.

(** The page and the browser around it.  [teardown], [socket],
    [reconnectTimer] and [keepaliveTimer] are the variables of the stream
    effect; [sockets] are the WebSockets created so far (a socket is named
    by its position), [timeouts] the pending [setTimeout(connect, delay)]
    calls, [intervals] the live keepalive intervals, [timerIds] the
    number of timer ids handed out, [sent] the frames sent, [requests] the
    [fetch] calls issued and [tasks] the suspended action handlers. *)
Record World : Type := mkWorld {
  ui : State;
  teardown : bool;
  socket : option nat;
  reconnectTimer : option nat;
  keepaliveTimer : option nat;
  sockets : list ReadyState;
  timeouts : list (nat * Z);
  intervals : list (nat * Z);
  timerIds : nat;
  sent : list (nat * jsstring);
  requests : list Request;
  tasks : list Pending
}.

Definition withUi (f : State -> State) (w : World) : World :=
  mkWorld (f (ui w)) (teardown w) (socket w) (reconnectTimer w) (keepaliveTimer w)
          (sockets w) (timeouts w) (intervals w) (timerIds w) (sent w)
          (requests w) (tasks w).

Definition setTeardown (v : bool) (w : World) : World :=
  mkWorld (ui w) v (socket w) (reconnectTimer w) (keepaliveTimer w)
          (sockets w) (timeouts w) (intervals w) (timerIds w) (sent w)
          (requests w) (tasks w).

Definition setSocket (v : option nat) (w : World) : World :=
  mkWorld (ui w) (teardown w) v (reconnectTimer w) (keepaliveTimer w)
          (sockets w) (timeouts w) (intervals w) (timerIds w) (sent w)
          (requests w) (tasks w).

Definition setReconnectTimer (v : option nat) (w : World) : World :=
  mkWorld (ui w) (teardown w) (socket w) v (keepaliveTimer w)
          (sockets w) (timeouts w) (intervals w) (timerIds w) (sent w)
          (requests w) (tasks w).

Definition setKeepaliveTimer (v : option nat) (w : World) : World :=
  mkWorld (ui w) (teardown w) (socket w) (reconnectTimer w) v
          (sockets w) (timeouts w) (intervals w) (timerIds w) (sent w)
          (requests w) (tasks w).

Definition setSockets (v : list ReadyState) (w : World) : World :=
  mkWorld (ui w) (teardown w) (socket w) (reconnectTimer w) (keepaliveTimer w)
          v (timeouts w) (intervals w) (timerIds w) (sent w)
          (requests w) (tasks w).

Definition setTimeouts (v : list (nat * Z)) (w : World) : World :=
  mkWorld (ui w) (teardown w) (socket w) (reconnectTimer w) (keepaliveTimer w)
          (sockets w) v (intervals w) (timerIds w) (sent w)
          (requests w) (tasks w).

Definition setIntervals (v : list (nat * Z)) (w : World) : World :=
  mkWorld (ui w) (teardown w) (socket w) (reconnectTimer w) (keepaliveTimer w)
          (sockets w) (timeouts w) v (timerIds w) (sent w)
          (requests w) (tasks w).

Definition setTimerIds (v : nat) (w : World) : World :=
  mkWorld (ui w) (teardown w) (socket w) (reconnectTimer w) (keepaliveTimer w)
          (sockets w) (timeouts w) (intervals w) v (sent w)
          (requests w) (tasks w).

Definition setSent (v : list (nat * jsstring)) (w : World) : World :=
  mkWorld (ui w) (teardown w) (socket w) (reconnectTimer w) (keepaliveTimer w)
          (sockets w) (timeouts w) (intervals w) (timerIds w) v
          (requests w) (tasks w).

Definition setRequests (v : list Request) (w : World) : World :=
  mkWorld (ui w) (teardown w) (socket w) (reconnectTimer w) (keepaliveTimer w)
          (sockets w) (timeouts w) (intervals w) (timerIds w) (sent w)
          v (tasks w).

Definition setTasks (v : list Pending) (w : World) : World :=
  mkWorld (ui w) (teardown w) (socket w) (reconnectTimer w) (keepaliveTimer w)
          (sockets w) (timeouts w) (intervals w) (timerIds w) (sent w)
          (requests w) v.

(** The world before the stream effect has run. *)
Definition blankWorld : World :=
  {| ui := initialState; teardown := false; socket := None;
     reconnectTimer := None; keepaliveTimer := None; sockets := [];
     timeouts := []; intervals := []; timerIds := 0%nat; sent := [];
     requests := []; tasks := [] |}.

Fixpoint replaceNth {A : Type} (n : nat) (x : A) (l : list A) : list A :=
  match l, n with
  | [], _ => []
  | _ :: l', O => x :: l'
  | y :: l', S n' => y :: replaceNth n' x l'
  end.

Fixpoint removeNth {A : Type} (n : nat) (l : list A) : list A :=
  match l, n with
  | [], _ => []
  | _ :: l', O => l'
  | y :: l', S n' => y :: removeNth n' l'
  end.

(** [new WebSocket(wsUrl)]: a fresh socket, connecting. *)
Definition newWebSocket (w : World) : nat * World :=
  (length (sockets w), setSockets (sockets w ++ [CONNECTING]) w).

(** [sock.close()]: starts the closing handshake unless the socket is
    closing or closed already; the close event comes later. *)
Definition WebSocket_close (k : nat) (w : World) : World :=
  match nth_error (sockets w) k with
  | Some CONNECTING | Some OPEN => setSockets (replaceNth k CLOSING (sockets w)) w
  | _ => w
  end.

(** [window.setTimeout(connect, delay)] and [window.setInterval(tick, period)]
    draw their ids, positive integers, from one counter. *)
Definition setTimeout (delay : Z) (w : World) : nat * World :=
  let t := S (timerIds w) in
  (t, setTimerIds t (setTimeouts (timeouts w ++ [(t, delay)]) w)).

Definition setInterval (period : Z) (w : World) : nat * World :=
  let t := S (timerIds w) in
  (t, setTimerIds t (setIntervals (intervals w ++ [(t, period)]) w)).

Definition withoutTimer (t : nat) (l : list (nat * Z)) : list (nat * Z) :=
  filter (fun e => negb (Nat.eqb (fst e) t)) l.

Definition clearTimeout (t : nat) (w : World) : World :=
  setTimeouts (withoutTimer t (timeouts w)) w.

Definition clearInterval (t : nat) (w : World) : World :=
  setIntervals (withoutTimer t (intervals w)) w.

(** [if (timer) clear(timer)]: [null] and [0] are falsy. *)
Definition ifTimer (timer : option nat) (clear : nat -> World -> World)
           (w : World) : World :=
  match timer with
  | Some (S t) => clear (S t) w
  | _ => w
  end.

(** *** The stream effect *)

(** [const clearTimers = () => ...] *)
Definition clearTimers (w : World) : World :=
  let w := ifTimer (reconnectTimer w) clearTimeout w in
  ifTimer (keepaliveTimer w) clearInterval w.

(** [const connect = () => ...]: nothing once [teardown] is set;
    otherwise a new socket, with the four handlers below. *)
Definition connect (w : World) : World :=
  if teardown w then w
  else
    let '(k, w) := newWebSocket w in
    setSocket (Some k) w.

(** The keepalive tick:
    [if (socket?.readyState === WebSocket.OPEN) socket.send('ping')] *)
Definition keepaliveTick (w : World) : World :=
  match socket w with
  | Some k =>
      match nth_error (sockets w) k with
      | Some OPEN => setSent (sent w ++ [(k, str "ping")]) w
      | _ => w
      end
  | None => w
  end.

(** [socket.onopen] *)
Definition onopen (r : Readings) (w : World) : World :=
  let w := withUi (setConnected true) w in
  let w := withUi (addLog r (str "WebSocket connected") None) w in
  let '(t, w) := setInterval 15000 w in
  setKeepaliveTimer (Some t) w.

(** [socket.onmessage]: the [try] body is [JSON.parse] followed by
    [applyPayload], which does not throw on a payload of the declared type;
    the [catch] logs. *)
Definition onmessage (r : Readings) (data : jsstring) (w : World)
  : completion World :=
  tryCatch
    (bind (JSON_parse data) (fun payload =>
     Normal (withUi (applyPayload r payload (str "vision stream")) w)))
    (fun _ =>
     Normal (withUi (addLog r (str "Invalid websocket payload") None) w)).

(** [socket.onclose] *)
Definition onclose (r : Readings) (w : World) : World :=
  let w := withUi (setConnected false) w in
  let w := ifTimer (keepaliveTimer w) clearInterval w in
  if negb (teardown w) then
    let w := withUi (addLog r (str "WebSocket disconnected. Reconnecting...") None) w in
    let '(t, w) := setTimeout 1200 w in
    setReconnectTimer (Some t) w
  else w.

(** [socket.onerror]: [socket?.close()] *)
Definition onerror (w : World) : World :=
  match socket w with
  | Some k => WebSocket_close k w
  | None => w
  end.

(** The cleanup the effect returns. *)
Definition cleanup (w : World) : World :=
  let w := setTeardown true w in
  let w := clearTimers w in
  match socket w with
  | Some k => WebSocket_close k w
  | None => w
  end.

(** *** The operator actions *)

(** [response.ok]: a status in 200..299. *)
Definition ok (status : Z) : bool := (200 <=? status) && (status <=? 299).

(** [error instanceof Error ? error.message : fallback] *)
Definition messageOf (e : thrown) (fallback : jsstring) : jsstring :=
  match e with
  | ErrorObject message => message
  | OtherValue => fallback
  end.

(** The [finally] block of every action. *)
Definition release (s : State) : State * option Pending :=
  (setActionBusy None s, None).

(** [handleAnalyzeNow] up to its first [await]. *)
Definition handleAnalyzeNow (w : World) : World :=
  let w := withUi (setActionBusy (Some (str "analyze"))) w in
  let w := setRequests (requests w ++ [AnalyzeCurrent]) w in
  setTasks (tasks w ++ [AnalyzeFetch]) w.

(** [handleHapticPulse(intensity)] up to its first [await]. *)
Definition handleHapticPulse (intensity : number) (w : World) : World :=
  let clamped := clamp intensity (num 0) (num 255) in
  let w := withUi (setActionBusy (Some (str "haptic-" ++ Number_toString clamped))) w in
  let w := setRequests (requests w ++ [HapticSend clamped]) w in
  setTasks (tasks w ++ [HapticFetch clamped]) w.

(** [handleSpeakPrompt] after its guard, up to its first [await].  The
    request URL is built inside the [try]: when [encodeURIComponent] throws,
    the [catch] logs, the [finally] clears the token and nothing is sent. *)
Definition speakText (r : Readings) (text : jsstring) (w : World) : World :=
  let w := withUi (setActionBusy (Some (str "speak"))) w in
  match encodeURIComponent text with
  | Throw e =>
      let w := withUi (addLog r (messageOf e (str "TTS request failed")) None) w in
      withUi (setActionBusy None) w
  | Normal query =>
      let w := setRequests (requests w ++ [Tts query]) w in
      setTasks (tasks w ++ [SpeakFetch]) w
  end.

(** [handleSpeakPrompt]: [const text = voicePrompt.trim(); if (!text) return] *)
Definition handleSpeakPrompt (r : Readings) (w : World) : World :=
  match trim (voicePrompt (ui w)) with
  | [] => w
  | text => speakText r text w
  end.

(** A handler suspended at [p] goes on when the promise it awaits settles
    with [o]: the new state, and the next [await] unless the handler has
    finished.  A settlement of another kind than the one awaited cannot
    occur and leaves the handler where it is. *)
Definition resume (r : Readings) (p : Pending) (o : Settlement) (s : State)
  : State * option Pending :=
  match p, o with
  | AnalyzeFetch, Rejected e =>
      release (addLog r (messageOf e (str "Analyze request failed")) None s)
  | AnalyzeFetch, Responded status =>
      if negb (ok status)
      then release (addLog r (str "Analyze failed (" ++ Z_toString status ++ str ")") None s)
      else (s, Some AnalyzeJson)
  | AnalyzeJson, Rejected e =>
      release (addLog r (messageOf e (str "Analyze request failed")) None s)
  | AnalyzeJson, AnalyzeBody payload =>
      release (applyPayload r payload (str "manual analyze") s)
  | HapticFetch clamped, Rejected e =>
      release (addLog r (messageOf e (str "Haptic request failed")) None s)
  | HapticFetch clamped, Responded status =>
      if negb (ok status)
      then release (addLog r (str "Haptic send failed (" ++ Z_toString status ++ str ")") None s)
      else (s, Some (HapticJson clamped))
  | HapticJson clamped, Rejected e =>
      release (addLog r (messageOf e (str "Haptic request failed")) None s)
  | HapticJson clamped, HapticBody _ message =>
      let s := setHapticIntensity clamped s in
      release (addLog r match message with
                        | Some (c :: m) => c :: m
                        | _ => str "Haptic pulse " ++ Number_toString clamped
                        end None s)
  | SpeakFetch, Rejected e =>
      release (addLog r (messageOf e (str "TTS request failed")) None s)
  | SpeakFetch, Responded status =>
      if status =? 204
      then release (addLog r (str "TTS returned no audio (check ElevenLabs key)") None s)
      else if negb (ok status)
      then release (addLog r (str "TTS failed (" ++ Z_toString status ++ str ")") None s)
      else (s, Some SpeakBlob)
  | SpeakBlob, Rejected e =>
      release (addLog r (messageOf e (str "TTS request failed")) None s)
  | SpeakBlob, BlobRead => (s, Some SpeakPlay)
  | SpeakPlay, Rejected e =>
      release (addLog r (messageOf e (str "TTS request failed")) None s)
  | SpeakPlay, Played =>
      release (addLog r (str "TTS playback started") None s)
  | _, _ => (s, Some p)
  end.

(** The settlement [o] is of the kind the handler awaits at [p]. *)
Definition awaited (p : Pending) (o : Settlement) : bool :=
  match p, o with
  | _, Rejected _ => true
  | (AnalyzeFetch | HapticFetch _ | SpeakFetch), Responded _ => true
  | AnalyzeJson, AnalyzeBody _ => true
  | HapticJson _, HapticBody _ _ => true
  | SpeakBlob, BlobRead => true
  | SpeakPlay, Played => true
  | _, _ => false
  end.

(** The number of [await]s a handler suspended at [p] has still to pass. *)
Definition awaitsLeft (p : Pending) : nat :=
  match p with
  | AnalyzeFetch | HapticFetch _ | SpeakBlob => 2
  | AnalyzeJson | HapticJson _ | SpeakPlay => 1
  | SpeakFetch => 3
  end.

(** The promise awaited by the [i]-th suspended handler settles. *)
Definition settle (r : Readings) (i : nat) (o : Settlement) (w : World) : World :=
  match nth_error (tasks w) i with
  | None => w
  | Some p =>
      let '(s, next) := resume r p o (ui w) in
      let w := withUi (fun _ => s) w in
      match next with
      | Some p' => setTasks (replaceNth i p' (tasks w)) w
      | None => setTasks (removeNth i (tasks w)) w
      end
  end.

(** The four buttons of the "Hardware Controls" panel. *)
Inductive Button : Type := AnalyzeNow | SpeakPrompt | Pulse120 | MaxAlert.

Definition onClick (r : Readings) (b : Button) : World -> World :=
  match b with
  | AnalyzeNow => handleAnalyzeNow
  | SpeakPrompt => handleSpeakPrompt r
  | Pulse120 => handleHapticPulse (num 120)
  | MaxAlert => handleHapticPulse (num 220)
  end.

(** [disabled={actionBusy !== null}], the same on all four. *)
Definition disabled (w : World) : bool :=
  match actionBusy (ui w) with
  | Some _ => true
  | None => false
  end.

(** A click on a button: a disabled button dispatches nothing. *)
Definition click (r : Readings) (b : Button) (w : World) : World :=
  if disabled w then w else onClick r b w.

(** *** The event loop *)

(** What the browser and the operator can make happen. *)
Inductive Event : Type :=
| SocketOpened (k : nat)
| SocketMessage (k : nat) (data : jsstring)
| SocketClosed (k : nat)
| SocketErrored (k : nat)
| TimerFired (t : nat)
| Unmounted
| Clicked (b : Button)
| Settled (i : nat) (o : Settlement)
| VideoLoaded
| VideoFailed.

Definition isPending (t : nat) (l : list (nat * Z)) : bool :=
  existsb (fun e => Nat.eqb (fst e) t) l.

(** One turn of the event loop.  The browser opens a socket that is
    connecting, delivers messages on an open one, closes one that is not
    closed yet, and fires a timer that is pending; anything else is not an
    event and changes nothing.  An exception that left a handler would be
    reported by the browser, and the loop would go on. *)
Definition step (r : Readings) (e : Event) (w : World) : World :=
  match e with
  | SocketOpened k =>
      match nth_error (sockets w) k with
      | Some CONNECTING => onopen r (setSockets (replaceNth k OPEN (sockets w)) w)
      | _ => w
      end
  | SocketMessage k data =>
      match nth_error (sockets w) k with
      | Some OPEN =>
          match onmessage r data w with
          | Normal w' => w'
          | Throw _ => w
          end
      | _ => w
      end
  | SocketClosed k =>
      match nth_error (sockets w) k with
      | Some CLOSED | None => w
      | Some _ => onclose r (setSockets (replaceNth k CLOSED (sockets w)) w)
      end
  | SocketErrored k =>
      match nth_error (sockets w) k with
      | Some CLOSED | None => w
      | Some _ => onerror w
      end
  | TimerFired t =>
      if isPending t (timeouts w) then connect (clearTimeout t w)
      else if isPending t (intervals w) then keepaliveTick w
      else w
  | Unmounted => cleanup w
  | Clicked b => click r b w
  | Settled i o => settle r i o w
  | VideoLoaded => withUi (setVideoReady true) w
  | VideoFailed => withUi (setVideoReady false) w
  end.

Fixpoint run (evs : list (Readings * Event)) (w : World) : World :=
  match evs with
  | [] => w
  | (r, e) :: evs' => run evs' (step r e w)
  end.

(** The page once mounted: the stream effect has called [connect()]. *)
Definition mounted : World := connect blankWorld.

(** A world the page can be in. *)
Definition reachable (w : World) : Prop :=
  exists evs, w = run evs mounted.

End Platform.

(** ** The earlier revision of the page *)

(** The earlier revision keeps 60 entries and normalizes the payload inside
    [onmessage], with the same code; its log is what is modelled of it. *)
Module Earlier.

Definition MAX_LOG_ENTRIES : nat := 60.

Definition addLog (toLocaleTimeString : number -> jsstring)
  : Readings -> jsstring -> option number -> State -> State :=
  addLogUpTo toLocaleTimeString MAX_LOG_ENTRIES.

End Earlier.

(** ** The claims in the words of the specification *)

(** "Round each coordinate, clamp to [lo, hi]": the integer a value that
    coerces to a number is normalized to. *)
Definition roundClamp (lo hi : Z) (v : number) : option Z :=
  match v with
  | NaN => None
  | NegInf => Some lo
  | PosInf => Some hi
  | Fin q => Some (Z.max lo (Z.min hi (Qfloor (q + (1 # 2)))))
  end.

(** A detection's box is kept as [b]: it has exactly four entries, each
    coerces to a number, and after rounding and clamping to [0, 1000] the
    maxima exceed the minima. *)
Definition keptAs (raw : option (list number)) (b : Box) : Prop :=
  exists v1 v2 v3 v4 ymin xmin ymax xmax,
    raw = Some [v1; v2; v3; v4]
    /\ roundClamp 0 1000 v1 = Some ymin /\ roundClamp 0 1000 v2 = Some xmin
    /\ roundClamp 0 1000 v3 = Some ymax /\ roundClamp 0 1000 v4 = Some xmax
    /\ ymax > ymin /\ xmax > xmin
    /\ b = (num ymin, num xmin, num ymax, num xmax).

(** The buffer after the appends [calls], oldest first, to a state whose
    log is [log0]: newest first, cut at the capacity. *)
Definition appended (entryOf : Readings -> jsstring -> option number -> LogEntry)
           (cap : nat) (calls : list (Readings * jsstring * option number))
           (log0 : list LogEntry) : list LogEntry :=
  firstn cap (rev (map (fun c => entryOf (fst (fst c)) (snd (fst c)) (snd c)) calls) ++ log0).

(** The calls [calls] of an [addLog], oldest first. *)
Definition appendAll (add : Readings -> jsstring -> option number -> State -> State)
           (calls : list (Readings * jsstring * option number)) (s : State) : State :=
  fold_left (fun s c => add (fst (fst c)) (snd (fst c)) (snd c) s) calls s.

(** The event buffer of capacity [cap] kept by [add]: an append never
    leaves more than [cap] entries; after any appends the buffer holds the
    entries newest first, cut at [cap]; after [cap + 1] appends it holds
    exactly the [cap] latest, the first one appended being evicted together
    with everything older. *)
Definition boundedLog (cap : nat)
           (add : Readings -> jsstring -> option number -> State -> State)
           (entryOf : Readings -> jsstring -> option number -> LogEntry) : Prop :=
  (forall r text ts s, (length (eventLog (add r text ts s)) <= cap)%nat)
  /\ (forall calls s,
         (length (eventLog s) <= cap)%nat ->
         (length (eventLog (appendAll add calls s)) <= cap)%nat)
  /\ (forall calls s,
         (length (eventLog s) <= cap)%nat ->
         eventLog (appendAll add calls s) = appended entryOf cap calls (eventLog s))
  /\ (forall c calls s,
         length calls = cap ->
         eventLog (appendAll add (c :: calls) s)
         = rev (map (fun c => entryOf (fst (fst c)) (snd (fst c)) (snd c)) calls)).


(** The browser can still fire a close event on socket [k]. *)
Definition closable (k : nat) (sockets : list ReadyState) : bool :=
  match nth_error sockets k with
  | Some CLOSED | None => false
  | Some _ => true
  end.

(** [s] does not begin with white space. *)
Definition noLeadingSpace (s : jsstring) : Prop :=
  match s with
  | c :: _ => isWhiteSpace c = false
  | [] => True
  end.

(** Since [w0], [teardown] is set, no socket has been created and no
    timeout has been added. *)
Definition tornDown (w0 w : World) : Prop :=
  teardown w = true
  /\ length (sockets w) = length (sockets w0)
  /\ incl (timeouts w) (timeouts w0).

(** ** A stand-in platform, to run the model on concrete inputs *)

Module Sample.

(** Lower case on the ASCII letters. *)
Definition toLowerCase (s : jsstring) : jsstring :=
  map (fun c => if ((65 <=? c) && (c <=? 90))%N then (c + 32)%N else c) s.

Definition toLocaleTimeString (_ : number) : jsstring := str "12:00:00 PM".

Definition fractionToString (_ : Q) : jsstring := str "0.5".

Definition emptyPayload : Payload.t :=
  Payload.mk None None None None.

(** Decodes the empty object and nothing else. *)
Definition JSON_parse (data : jsstring) : completion Payload.t :=
  if list_eq_dec N.eq_dec data (str "{}") then Normal emptyPayload
  else Throw (ErrorObject (str "Unexpected token")).

(** Escapes the space, passes every other code unit on and throws on a
    surrogate. *)
Definition encodeURIComponent (s : jsstring) : completion jsstring :=
  if existsb (fun c => ((55296 <=? c) && (c <=? 57343))%N) s
  then Throw (ErrorObject (str "URI malformed"))
  else Normal (flat_map (fun c => if (c =? 32)%N then str "%20" else [c]) s).

Definition readings : Readings :=
  {| Date_now := 1700000000000; Math_random := 1 # 4 |}.

End Sample.

(** A run of the page on the stand-in platform, every event with the same
    readings. *)
Definition sampleRun (evs : list Event) : World :=
  run Sample.toLowerCase Sample.toLocaleTimeString Sample.fractionToString
      Sample.JSON_parse Sample.encodeURIComponent
      (map (pair Sample.readings) evs) mounted.

(** [n] appends, numbered 1 to [n], oldest first. *)
Definition sampleCalls (n : nat) : list (Readings * jsstring * option number) :=
  map (fun i => (Sample.readings, Z_toString (Z.of_nat i), None)) (seq 1 n).



(** The payload of the scenario:
    [{"voice_prompt":" ", "haptic_intensity":999,
      "detections":[{"label":"Box","box":[10,10,5,5]}]}] *)
Definition scenarioPayload : Payload.t :=
  Payload.mk (Some (str " "))
             (Some [Raw.mk (Some (str "Box")) (Some [num 10; num 10; num 5; num 5])])
             (Some (num 999))
             None.

(** ** The rest of the page and of the repository *)

(** [window.location], as far as the page reads it. *)
Record Location : Type := mkLocation {
  protocol : jsstring;
  hostname : jsstring;
  port : jsstring
}.

Fixpoint dropSlashes (s : jsstring) : jsstring :=
  match s with
  | c :: s' => if (c =? 47)%N then dropSlashes s' else s
  | [] => []
  end.

(** [s.replace(/\/+$/, '')]: the run of slashes at the end goes. *)
Definition stripTrailingSlashes (s : jsstring) : jsstring :=
  rev (dropSlashes (rev s)).

(** [function apiBaseUrl()], from [import.meta.env.VITE_API_BASE_URL] and
    [window.location]. *)
Definition apiBaseUrl (VITE_API_BASE_URL : option jsstring) (location : Location)
  : jsstring :=
  match option_map trim VITE_API_BASE_URL with
  | Some (c :: envBase) => stripTrailingSlashes (c :: envBase)
  | _ =>
      let protocol :=
        if list_eq_dec N.eq_dec (protocol location) (str "https:")
        then str "https:" else str "http:" in
      let host :=
        match hostname location with
        | [] => str "127.0.0.1"
        | h => h
        end in
      protocol ++ str "//" ++ host ++ str ":8000"
  end.

(** The last code unit of [s] is [c]. *)
Definition endsWith (c : N) (s : jsstring) : bool :=
  match rev s with
  | x :: _ => (x =? c)%N
  | [] => false
  end.

(** No base is configured: the variable is unset or blank. *)
Definition noBase (VITE_API_BASE_URL : option jsstring) : Prop :=
  match VITE_API_BASE_URL with
  | None => True
  | Some e => trim e = []
  end.

(** [c] is the upper-case ASCII letter [upper] or its lower case. *)
Definition isLetter (upper c : N) : bool :=
  ((c =? upper) || (c =? upper + 32))%N.

(** [s.replace(/^http/i, 'ws')] *)
Definition httpToWs (s : jsstring) : jsstring :=
  match s with
  | h :: t1 :: t2 :: p :: rest =>
      if isLetter 72 h && isLetter 84 t1 && isLetter 84 t2 && isLetter 80 p
      then str "ws" ++ rest
      else s
  | _ => s
  end.

(** [const videoUrl], [const wsUrl] and [const portLabel] of the page. *)
Definition videoUrl (apiBase : jsstring) : jsstring :=
  apiBase ++ str "/stream/video".

Definition wsUrl (apiBase : jsstring) : jsstring :=
  httpToWs apiBase ++ str "/stream/ws".

Definition portLabel (location : Location) : jsstring :=
  match port location with
  | [] => str "5173"
  | p => p
  end.

(** The Arduino sketch: step 3 of [loop()], the haptic feedback.  The
    result is the duty cycle on [PWMA] after the pass: what a branch writes
    with [analogWrite], or the duty of before when no branch is taken. *)
Module Sketch.

Definition hapticFeedback (previous distance : Z) : Z :=
  if (distance >? 100) || (distance <=? 0) then 0
  else if (distance >? 40) && (distance <=? 100) then 120
  else if distance <=? 40 then 255
  else previous.

End Sketch.

(** *** Invariants of the page *)

(** A detection as the page draws it: integer corners on the 0..1000 grid,
    with a positive height and width. *)
Definition validDetection (d : Detection) : Prop :=
  exists ymin xmin ymax xmax,
    box d = (num ymin, num xmin, num ymax, num xmax)
    /\ 0 <= ymin < ymax /\ ymax <= 1000
    /\ 0 <= xmin < xmax /\ xmax <= 1000.

(** A value the haptic meter can show: [NaN] or an integer of 0..255. *)
Definition meterValue (x : number) : Prop :=
  x = NaN \/ exists z, x = num z /\ 0 <= z <= 255.

(** What holds of the state in every world the page reaches. *)
Definition stateOK (s : State) : Prop :=
  trim (voicePrompt s) = voicePrompt s
  /\ meterValue (hapticIntensity s)
  /\ Forall validDetection (detections s)
  /\ (length (eventLog s) <= MAX_LOG_ENTRIES)%nat.

(** The token the handler suspended at [p] holds; the pulses are the two
    the buttons send. *)
Definition holds (p : Pending) (token : option jsstring) : Prop :=
  match p with
  | AnalyzeFetch | AnalyzeJson => token = Some (str "analyze")
  | HapticFetch c | HapticJson c =>
      (c = num 120 /\ token = Some (str "haptic-120"))
      \/ (c = num 220 /\ token = Some (str "haptic-220"))
  | SpeakFetch | SpeakBlob | SpeakPlay => token = Some (str "speak")
  end.

Definition lockOK (w : World) : Prop :=
  match tasks w with
  | [] => actionBusy (ui w) = None
  | [p] => holds p (actionBusy (ui w))
  | _ => False
  end.


(** What the stream session consists of. *)
Definition sessionView (w : World)
  : bool * option nat * option nat * option nat * list ReadyState
    * list (nat * Z) * list (nat * Z) * bool :=
  (teardown w, socket w, reconnectTimer w, keepaliveTimer w, sockets w,
   timeouts w, intervals w, connected (ui w)).

(** Where the stream session stands, read off the newest socket: every
    older socket is closed and [socket] names the newest one, which is
    - connecting: no timer is set;
    - open: the page shows "connected" and one keepalive interval of 15 s
      runs, the one [keepaliveTimer] names;
    - closing: no reconnect is pending yet, and the keepalive interval either
      is gone or still runs while the page is mounted;
    - closed: the page shows "disconnected", no interval runs, and one
      reconnect timeout of 1200 ms is pending, the one [reconnectTimer]
      names, unless [teardown] is set, when none is. *)
Definition session (w : World) : Prop :=
  exists k st,
    sockets w = repeat CLOSED k ++ [st]
    /\ socket w = Some k
    /\ match st with
       | CONNECTING =>
           teardown w = false /\ connected (ui w) = false
           /\ timeouts w = [] /\ intervals w = []
       | OPEN =>
           teardown w = false /\ connected (ui w) = true
           /\ timeouts w = []
           /\ exists t, intervals w = [(S t, 15000)] /\ keepaliveTimer w = Some (S t)
       | CLOSING =>
           timeouts w = []
           /\ (intervals w = []
               \/ (teardown w = false
                   /\ exists t, intervals w = [(S t, 15000)]
                                /\ keepaliveTimer w = Some (S t)))
       | CLOSED =>
           connected (ui w) = false /\ intervals w = []
           /\ if teardown w then timeouts w = []
              else exists t, timeouts w = [(S t, 1200)]
                             /\ reconnectTimer w = Some (S t)
       end.

(** A page served over https by the host cam.local. *)
Definition sampleLocation : Location :=
  {| protocol := str "https:"; hostname := str "cam.local"; port := [] |}.

(** * Theorems *)

(** ** Numbers *)

Lemma Qle_bool_inject_Z (a b : Z) :
  Qle_bool (inject_Z a) (inject_Z b) = (a <=? b).
Proof.
  unfold Qle_bool, inject_Z; simpl. now rewrite !Z.mul_1_r.
Qed.

Lemma clamp_num (lo hi z : Z) :
  lo <= hi ->
  clamp (num z) (num lo) (num hi) = num (Z.max lo (Z.min hi z)).
Proof.
  intros Hle. unfold clamp, num, Math_min.
  rewrite Qle_bool_inject_Z.
  destruct (Z.leb_spec hi z) as [H | H]; unfold Math_max;
    rewrite Qle_bool_inject_Z.
  - destruct (Z.leb_spec lo hi); [ | lia ].
    f_equal. f_equal. lia.
  - destruct (Z.leb_spec lo z); f_equal; f_equal; lia.
Qed.

(** The code's [clamp(Math.round(Number(v)), lo, hi)] is the specification's
    "round, then clamp", and [NaN] where [v] does not coerce to a number. *)
Lemma clamp_round (lo hi : Z) (v : number) :
  lo <= hi ->
  clamp (Math_round (Number v)) (num lo) (num hi)
  = match roundClamp lo hi v with
    | Some z => num z
    | None => NaN
    end.
Proof.
  intros Hle. destruct v as [ | | | q]; simpl; try reflexivity.
  - unfold clamp, num; simpl. rewrite Qle_bool_inject_Z.
    destruct (Z.leb_spec lo hi); [ reflexivity | lia ].
  - apply (clamp_num lo hi _ Hle).
Qed.

Lemma roundClamp_range (lo hi : Z) (v : number) (z : Z) :
  lo <= hi -> roundClamp lo hi v = Some z -> lo <= z <= hi.
Proof.
  intros Hle H. destruct v; simpl in H; inversion H; subst; lia.
Qed.

Lemma roundClamp_None (lo hi : Z) (v : number) :
  roundClamp lo hi v = None <-> Number_isNaN (Number v) = true.
Proof.
  destruct v; simpl; split; intro H; congruence.
Qed.

Lemma num_le_num (a b : Z) : num_le (num a) (num b) = (a <=? b).
Proof. unfold num_le, num. apply Qle_bool_inject_Z. Qed.

(** In range whenever the field is present and is not [NaN], or absent. *)
Lemma nextHaptic_in_range (payload : Payload.t) :
  Payload.haptic_intensity payload <> Some NaN ->
  exists z, nextHaptic payload = num z /\ 0 <= z <= 255.
Proof.
  intros H. unfold nextHaptic. rewrite clamp_round by lia.
  destruct (Payload.haptic_intensity payload) as [v | ].
  - destruct (roundClamp 0 255 v) as [z | ] eqn:E.
    + exists z. split; [ reflexivity | ]. eapply roundClamp_range; [ | exact E ]. lia.
    + apply roundClamp_None in E. destruct v; simpl in E; congruence.
  - exists 0. split; [ reflexivity | lia ].
Qed.

Example nextHaptic_300 :
  nextHaptic (Payload.mk None None (Some (num 300)) None) = num 255.
Proof. reflexivity. Qed.

Example nextHaptic_minus_10 :
  nextHaptic (Payload.mk None None (Some (num (-10))) None) = num 0.
Proof. reflexivity. Qed.

Example nextHaptic_absent :
  nextHaptic (Payload.mk None None None None) = num 0.
Proof. reflexivity. Qed.

Example nextHaptic_half :
  nextHaptic (Payload.mk None None (Some (Fin (5 # 2))) None) = num 3.
Proof. reflexivity. Qed.

(** ** The payload normalizer *)

(** C2, at the input where the code leaves the claim: a haptic field that
    does not coerce to a number ([Number(v)] is [NaN]) is stored in the
    snapshot as [NaN], neither as 0 nor as any integer of [0, 255];
    [Math.round], [Math.min] and [Math.max] all pass [NaN] on, and
    [applyPayload] has no [Number.isNaN] test like the one of
    [normalizeBox].  (300 gives 255, -10 gives 0 and an absent field gives 0:
    [nextHaptic_300], [nextHaptic_minus_10], [nextHaptic_absent]; every other
    input lands in [0, 255]: [nextHaptic_in_range].) *)
Theorem C2_haptic_NaN_reaches_snapshot
  (toLowerCase : jsstring -> jsstring) (toLocaleTimeString : number -> jsstring)
  (fractionToString : Q -> jsstring) (r : Readings) (s : State) :
  hapticIntensity
    (applyPayload toLowerCase toLocaleTimeString fractionToString r
                  (Payload.mk None None (Some NaN) None) (str "vision stream") s)
  = NaN.
Proof. reflexivity. Qed.

Lemma Number_isNaN_num (z : Z) : Number_isNaN (num z) = false.
Proof. reflexivity. Qed.

Lemma normalizeBox_four (v1 v2 v3 v4 : number) :
  normalizeBox (Some [v1; v2; v3; v4])
  = let coord := fun v => clamp (Math_round (Number v)) (num 0) (num 1000) in
    if Number_isNaN (coord v1) || Number_isNaN (coord v2)
       || Number_isNaN (coord v3) || Number_isNaN (coord v4)
    then None
    else if num_le (coord v3) (coord v1) || num_le (coord v4) (coord v2) then None
    else Some (coord v1, coord v2, coord v3, coord v4).
Proof. reflexivity. Qed.

Lemma normalizeBox_keptAs (raw : option (list number)) (b : Box) :
  normalizeBox raw = Some b <-> keptAs raw b.
Proof.
  split.
  - destruct raw as [l | ]; [ | discriminate ].
    destruct l as [ | v1 [ | v2 [ | v3 [ | v4 [ | v5 l]]]]]; try discriminate.
    rewrite normalizeBox_four; cbv zeta beta.
    rewrite !clamp_round by lia.
    destruct (roundClamp 0 1000 v1) as [ymin | ] eqn:E1; [ | discriminate ].
    destruct (roundClamp 0 1000 v2) as [xmin | ] eqn:E2; [ | discriminate ].
    destruct (roundClamp 0 1000 v3) as [ymax | ] eqn:E3; [ | discriminate ].
    destruct (roundClamp 0 1000 v4) as [xmax | ] eqn:E4;
      [ | rewrite !Number_isNaN_num; discriminate ].
    rewrite !Number_isNaN_num; cbn [orb]. rewrite !num_le_num.
    destruct (Z.leb_spec ymax ymin) as [Hy | Hy]; [ discriminate | ].
    destruct (Z.leb_spec xmax xmin) as [Hx | Hx]; [ discriminate | ].
    cbn [orb]. intros Hb; inversion Hb; subst.
    exists v1, v2, v3, v4, ymin, xmin, ymax, xmax.
    repeat split; auto; lia.
  - intros (v1 & v2 & v3 & v4 & ymin & xmin & ymax & xmax
            & -> & E1 & E2 & E3 & E4 & Hy & Hx & ->).
    rewrite normalizeBox_four; cbv zeta beta.
    rewrite !clamp_round by lia. rewrite E1, E2, E3, E4.
    rewrite !Number_isNaN_num; cbn [orb]. rewrite !num_le_num.
    destruct (Z.leb_spec ymax ymin); [ lia | ].
    destruct (Z.leb_spec xmax xmin); [ lia | ].
    reflexivity.
Qed.






(** ** The event history buffer *)

Lemma firstn_app_firstn {A : Type} (l1 l2 : list A) :
  forall n m : nat, (n <= m)%nat ->
    firstn n (l1 ++ firstn m l2) = firstn n (l1 ++ l2).
Proof.
  induction l1 as [ | x l1 IH]; intros n m Hnm.
  - cbn [app]. rewrite firstn_firstn. f_equal. lia.
  - destruct n as [ | n]; [ reflexivity | ].
    rewrite <- !app_comm_cons, !firstn_cons. f_equal. apply IH. lia.
Qed.

Lemma eventLog_addLogUpTo (toLocaleTimeString : number -> jsstring) (cap : nat)
      (r : Readings) (text : jsstring) (ts : option number) (s : State) :
  eventLog (addLogUpTo toLocaleTimeString cap r text ts s)
  = firstn cap (newEntry toLocaleTimeString r text ts :: eventLog s).
Proof. reflexivity. Qed.

Lemma appendAll_cons (add : Readings -> jsstring -> option number -> State -> State)
      (c : Readings * jsstring * option number)
      (calls : list (Readings * jsstring * option number)) (s : State) :
  appendAll add (c :: calls) s
  = appendAll add calls (add (fst (fst c)) (snd (fst c)) (snd c) s).
Proof. reflexivity. Qed.

Lemma eventLog_appendAll (toLocaleTimeString : number -> jsstring) (cap : nat)
      (calls : list (Readings * jsstring * option number)) :
  forall s,
    (length (eventLog s) <= cap)%nat ->
    eventLog (appendAll (addLogUpTo toLocaleTimeString cap) calls s)
    = appended (newEntry toLocaleTimeString) cap calls (eventLog s).
Proof.
  unfold appended.
  induction calls as [ | c calls IH]; intros s Hs.
  - cbn [appendAll fold_left map rev app]. now rewrite firstn_all2.
  - rewrite appendAll_cons.
    rewrite IH.
    + rewrite eventLog_addLogUpTo, firstn_app_firstn by lia.
      cbn [map rev]. now rewrite <- app_assoc.
    + rewrite eventLog_addLogUpTo. apply firstn_le_length.
Qed.

Lemma addLogUpTo_boundedLog (toLocaleTimeString : number -> jsstring) (cap : nat) :
  boundedLog cap (addLogUpTo toLocaleTimeString cap) (newEntry toLocaleTimeString).
Proof.
  unfold boundedLog. split; [ | split; [ | split ]].
  - intros. rewrite eventLog_addLogUpTo. apply firstn_le_length.
  - intros calls s Hs. rewrite eventLog_appendAll by assumption.
    apply firstn_le_length.
  - intros calls s Hs. now apply eventLog_appendAll.
  - intros c calls s Hlen.
    rewrite appendAll_cons.
    rewrite eventLog_appendAll
      by (rewrite eventLog_addLogUpTo; apply firstn_le_length).
    unfold appended. rewrite firstn_app.
    rewrite length_rev, length_map, Hlen, Nat.sub_diag, firstn_O, app_nil_r.
    apply firstn_all2. rewrite length_rev, length_map. lia.
Qed.

(** C7: in the page (capacity 80) and in its earlier revision (capacity 60)
    the event log never holds more than the capacity after an append, keeps
    its entries newest first, and after capacity + 1 appends holds exactly
    the latest capacity entries, the oldest having left at the tail. *)
Theorem C7_event_log_bounded_newest_first (toLocaleTimeString : number -> jsstring) :
  (MAX_LOG_ENTRIES = 80%nat
   /\ boundedLog MAX_LOG_ENTRIES (addLog toLocaleTimeString)
                 (newEntry toLocaleTimeString))
  /\ (Earlier.MAX_LOG_ENTRIES = 60%nat
      /\ boundedLog Earlier.MAX_LOG_ENTRIES (Earlier.addLog toLocaleTimeString)
                    (newEntry toLocaleTimeString)).
Proof.
  split; (split; [ reflexivity | apply addLogUpTo_boundedLog ]).
Qed.

Example eventLog_three_appends_capacity_two :
  map text
      (eventLog
         (appendAll (addLogUpTo Sample.toLocaleTimeString 2)
                    [(Sample.readings, str "a", None);
                     (Sample.readings, str "b", None);
                     (Sample.readings, str "c", None)]
                    initialState))
  = [str "c"; str "b"].
Proof. reflexivity. Qed.

(** ** Trimming *)

Lemma trimStart_noLeadingSpace (s : jsstring) : noLeadingSpace (trimStart s).
Proof.
  induction s as [ | c s IH]; simpl; [ exact I | ].
  destruct (isWhiteSpace c) eqn:E; [ exact IH | exact E ].
Qed.

Lemma trimStart_fixed (s : jsstring) : noLeadingSpace s -> trimStart s = s.
Proof.
  destruct s as [ | c s]; simpl; [ reflexivity | ].
  intros H. now rewrite H.
Qed.

Lemma trimStart_suffix (s : jsstring) : exists p, s = p ++ trimStart s.
Proof.
  induction s as [ | c s [p IH]]; simpl.
  - now exists [].
  - destruct (isWhiteSpace c).
    + exists (c :: p). simpl. now f_equal.
    + now exists [].
Qed.

Lemma trimEnd_keeps_head (s : jsstring) :
  noLeadingSpace s -> noLeadingSpace (trimEnd s).
Proof.
  intros H. unfold trimEnd.
  destruct (trimStart_suffix (rev s)) as [p Hp].
  assert (Hs : s = rev (trimStart (rev s)) ++ rev p).
  { rewrite <- rev_app_distr, <- Hp. symmetry. apply rev_involutive. }
  destruct (rev (trimStart (rev s))) as [ | c t]; [ exact I | ].
  rewrite Hs in H. exact H.
Qed.

Lemma trimEnd_fixed (s : jsstring) : noLeadingSpace (rev s) -> trimEnd s = s.
Proof.
  intros H. unfold trimEnd. rewrite trimStart_fixed by assumption.
  apply rev_involutive.
Qed.

Lemma trim_idempotent (s : jsstring) : trim (trim s) = trim s.
Proof.
  unfold trim at 1.
  assert (Hhead : noLeadingSpace (trim s)).
  { apply trimEnd_keeps_head, trimStart_noLeadingSpace. }
  rewrite (trimStart_fixed _ Hhead).
  apply trimEnd_fixed. unfold trim, trimEnd. rewrite rev_involutive.
  apply trimStart_noLeadingSpace.
Qed.

(** What [applyPayload] stores as the prompt is never blank. *)
Lemma trim_nextVoice (payload : Payload.t) : trim (nextVoice payload) <> [].
Proof.
  unfold nextVoice. destruct (Payload.voice_prompt payload) as [v | ];
    [ | discriminate ].
  destruct (trim v) as [ | c t] eqn:E; [ discriminate | ].
  rewrite <- E, trim_idempotent, E. discriminate.
Qed.

Example trim_spaces : trim (str "  a b  ") = str "a b".
Proof. reflexivity. Qed.

Example trim_blank : trim (str " ") = [].
Proof. reflexivity. Qed.

(** ** The page as a whole *)

Section Facts.

Variable toLowerCase : jsstring -> jsstring.
Variable toLocaleTimeString : number -> jsstring.
Variable fractionToString : Q -> jsstring.
Variable JSON_parse : jsstring -> completion Payload.t.
Variable encodeURIComponent : jsstring -> completion jsstring.

Local Abbreviation addLog' := (addLog toLocaleTimeString).
Local Abbreviation applyPayload' :=
  (applyPayload toLowerCase toLocaleTimeString fractionToString).
Local Abbreviation resume' := (resume toLowerCase toLocaleTimeString fractionToString).
Local Abbreviation settle' := (settle toLowerCase toLocaleTimeString fractionToString).
Local Abbreviation handleSpeakPrompt' :=
  (handleSpeakPrompt toLocaleTimeString encodeURIComponent).
Local Abbreviation speakText' := (speakText toLocaleTimeString encodeURIComponent).
Local Abbreviation onClick' :=
  (onClick toLocaleTimeString fractionToString encodeURIComponent).
Local Abbreviation click' :=
  (click toLocaleTimeString fractionToString encodeURIComponent).
Local Abbreviation handleHapticPulse' := (handleHapticPulse fractionToString).
Local Abbreviation onmessage' :=
  (onmessage toLowerCase toLocaleTimeString fractionToString JSON_parse).
Local Abbreviation step' :=
  (step toLowerCase toLocaleTimeString fractionToString JSON_parse
        encodeURIComponent).
Local Abbreviation run' :=
  (run toLowerCase toLocaleTimeString fractionToString JSON_parse
       encodeURIComponent).
Local Abbreviation reachable' :=
  (reachable toLowerCase toLocaleTimeString fractionToString JSON_parse
             encodeURIComponent).

(** Splits on the scrutinee of an innermost [match]. *)
Ltac break_match :=
  match goal with
  | |- context [match ?x with _ => _ end] =>
      lazymatch x with
      | context [match _ with _ => _ end] => fail
      | _ => destruct x eqn:?
      end
  | H : context [match ?x with _ => _ end] |- _ =>
      lazymatch x with
      | context [match _ with _ => _ end] => fail
      | _ => destruct x eqn:?
      end
  end.

(** Unfolds the stream handlers and splits on what they test. *)
Ltac handler_cases :=
  unfold step, onopen, onmessage, onclose, onerror, cleanup, clearTimers, connect,
    keepaliveTick, ifTimer, WebSocket_close, setTimeout, setInterval,
    newWebSocket, tryCatch, bind;
  cbv beta iota zeta;
  repeat (break_match; cbv beta iota zeta).

(** Reduces the fields of a world built by the setters. *)
Ltac proj_simpl :=
  cbn [ui teardown socket reconnectTimer keepaliveTimer sockets timeouts
       intervals timerIds sent requests tasks withUi setTeardown setSocket
       setReconnectTimer setKeepaliveTimer setSockets setTimeouts setIntervals
       setTimerIds setSent setRequests setTasks clearTimeout clearInterval
       actionBusy voicePrompt hapticIntensity detections eventLog connected
       videoReady setActionBusy setConnected setVoicePrompt setHapticIntensity
       setDetections setVideoReady] in *.

Ltac pair_eq :=
  repeat match goal with
         | H : (_, _) = (_, _) |- _ => inversion H; subst; clear H
         end.

(** *** What a resumed handler does *)

(** A handler that goes on to a further [await] has changed nothing and is
    nearer to its end, unless the settlement was not the awaited one. *)
Lemma resume_continues (r : Readings) (p p' : Pending) (o : Settlement) (s s' : State) :
  resume' r p o s = (s', Some p') ->
  s' = s
  /\ ((awaited p o = true /\ (awaitsLeft p' < awaitsLeft p)%nat)
      \/ (awaited p o = false /\ p' = p)).
Proof.
  destruct p, o; unfold resume, release; cbn [awaited awaitsLeft]; intros H;
    repeat break_match; pair_eq; try discriminate;
    (split; [ reflexivity | ]); auto.
Qed.

(** A handler that ends has cleared the token. *)
Lemma resume_finishes (r : Readings) (p : Pending) (o : Settlement) (s s' : State) :
  resume' r p o s = (s', None) ->
  actionBusy s' = None /\ awaited p o = true.
Proof.
  destruct p, o; unfold resume, release; cbn [awaited]; intros H;
    repeat break_match; pair_eq; try discriminate; split; reflexivity.
Qed.


(** The prompt after a resumption is the old one or one [applyPayload] made. *)
Lemma resume_voicePrompt (r : Readings) (p : Pending) (o : Settlement) (s s' : State)
      (next : option Pending) :
  resume' r p o s = (s', next) ->
  voicePrompt s' = voicePrompt s \/ exists payload, voicePrompt s' = nextVoice payload.
Proof.
  destruct p, o; unfold resume, release; intros H;
    repeat break_match; pair_eq; try discriminate;
    solve [ left; reflexivity | right; eexists; reflexivity ].
Qed.

(** *** What an event leaves alone *)

Lemma actionBusy_addLog (r : Readings) (text : jsstring) (ts : option number) (s : State) :
  actionBusy (addLog' r text ts s) = actionBusy s.
Proof. reflexivity. Qed.

Lemma actionBusy_applyPayload (r : Readings) (payload : Payload.t) (source : jsstring)
      (s : State) :
  actionBusy (applyPayload' r payload source s) = actionBusy s.
Proof. reflexivity. Qed.

(** Only clicks and settlements touch the token and the suspended handlers. *)
Lemma step_leaves_gate (r : Readings) (e : Event) (w : World) :
  match e with
  | Clicked _ | Settled _ _ => True
  | _ => actionBusy (ui (step' r e w)) = actionBusy (ui w)
         /\ tasks (step' r e w) = tasks w
  end.
Proof.
  destruct e; try exact I; handler_cases; split; reflexivity.
Qed.

(** An invariant of every step holds along every run. *)
Lemma run_invariant (P : World -> Prop) :
  (forall r e w, P w -> P (step' r e w)) ->
  forall evs w, P w -> P (run' evs w).
Proof.
  intros Hstep evs. induction evs as [ | [r e] evs IH]; intros w Hw.
  - exact Hw.
  - cbn [run]. apply IH, Hstep, Hw.
Qed.

(** *** The action gate *)







(** *** The prompt *)

Lemma voicePrompt_step (r : Readings) (e : Event) (w : World) :
  voicePrompt (ui (step' r e w)) = voicePrompt (ui w)
  \/ exists payload, voicePrompt (ui (step' r e w)) = nextVoice payload.
Proof.
  destruct e.
  8: { cbn [step]. unfold settle.
       destruct (nth_error (tasks w) i) as [p | ]; [ | now left ].
       destruct (resume' r p o (ui w)) as [s' next] eqn:E.
       apply resume_voicePrompt in E.
       destruct next; proj_simpl; exact E. }
  7: { cbn [step]. unfold click.
       destruct (disabled w); [ now left | ].
       destruct b; cbn [onClick];
         unfold handleAnalyzeNow, handleHapticPulse, handleSpeakPrompt, speakText;
         try (destruct (trim (voicePrompt (ui w))) as [ | c text] eqn:Htrim;
              [ | destruct (encodeURIComponent (c :: text)) ]);
         now left. }
  all: handler_cases;
    solve [ left; reflexivity | right; eexists; reflexivity ].
Qed.

Lemma trim_voicePrompt_reachable (w : World) :
  reachable' w -> trim (voicePrompt (ui w)) <> [].
Proof.
  intros [evs ->].
  apply (run_invariant (fun w => trim (voicePrompt (ui w)) <> [])).
  - intros r e w Hw.
    destruct (voicePrompt_step r e w) as [-> | [payload ->]];
      [ exact Hw | apply trim_nextVoice ].
  - discriminate.
Qed.

(** C9: in every world the page reaches the prompt is not blank (the
    initial "Waiting for analysis" is not, and [applyPayload], the only
    writer, stores a non-empty trimmed prompt or "Path is clear"), so
    [handleSpeakPrompt] never returns at its empty-prompt guard: it always
    goes on with the trimmed prompt, and once the prompt is encoded into the
    request it holds the lock with one request sent. *)
Theorem C9_prompt_never_blank (w : World) :
  reachable' w ->
  trim (voicePrompt (ui w)) <> []
  /\ (forall r,
         handleSpeakPrompt' r w = speakText' r (trim (voicePrompt (ui w))) w)
  /\ (forall r query,
         encodeURIComponent (trim (voicePrompt (ui w))) = Normal query ->
         actionBusy (ui (handleSpeakPrompt' r w)) = Some (str "speak")
         /\ requests (handleSpeakPrompt' r w) = requests w ++ [Tts query]
         /\ tasks (handleSpeakPrompt' r w) = tasks w ++ [SpeakFetch]).
Proof.
  intros Hr. pose proof (trim_voicePrompt_reachable w Hr) as Hne.
  split; [ exact Hne | ].
  unfold handleSpeakPrompt.
  destruct (trim (voicePrompt (ui w))) as [ | c t]; [ congruence | ].
  split; [ reflexivity | ].
  intros r query Hq. unfold speakText. rewrite Hq. repeat split.
Qed.

(** *** A haptic pulse *)

Lemma nth_error_last {A : Type} (l : list A) (x : A) :
  nth_error (l ++ [x]) (length l) = Some x.
Proof. induction l as [ | y l IH]; [ reflexivity | exact IH ]. Qed.

Lemma replaceNth_last {A : Type} (l : list A) (x y : A) :
  replaceNth (length l) y (l ++ [x]) = l ++ [y].
Proof.
  induction l as [ | z l IH]; [ reflexivity | ].
  cbn [length app replaceNth]. now rewrite IH.
Qed.



(** *** Reconnecting *)

Lemma length_replaceNth {A : Type} (n : nat) (x : A) (l : list A) :
  length (replaceNth n x l) = length l.
Proof.
  revert n. induction l as [ | y l IH]; intros [ | n]; cbn [replaceNth length];
    try reflexivity. now rewrite IH.
Qed.

Lemma isPending_last (t : nat) (delay : Z) (l : list (nat * Z)) :
  isPending t (l ++ [(t, delay)]) = true.
Proof.
  unfold isPending. rewrite existsb_app. cbn [existsb fst].
  rewrite Nat.eqb_refl. now rewrite orb_true_r.
Qed.

Ltac tornDown_solve :=
  proj_simpl; try congruence;
  try match goal with
      | H : teardown ?w = true, H' : negb (teardown ?w) = true |- _ =>
          rewrite H in H'; discriminate H'
      end;
  repeat split; rewrite ?length_replaceNth; try assumption;
  try (eapply incl_tran; [ apply incl_filter | assumption ]).

Lemma tornDown_step (w0 : World) (r : Readings) (e : Event) (w : World) :
  tornDown w0 w -> tornDown w0 (step' r e w).
Proof.
  intros (Ht & Hs & Hi). unfold tornDown.
  destruct e.
  8: { cbn [step]. unfold settle.
       destruct (nth_error (tasks w) i) as [p | ]; [ | auto ].
       destruct (resume' r p o (ui w)) as [s' [p' | ]]; tornDown_solve. }
  7: { cbn [step]. unfold click.
       destruct (disabled w); [ auto | ].
       destruct b; cbn [onClick];
         unfold handleAnalyzeNow, handleHapticPulse, handleSpeakPrompt, speakText;
         try (destruct (trim (voicePrompt (ui w))) as [ | c text] eqn:Htrim;
              [ | destruct (encodeURIComponent (c :: text)) ]);
         tornDown_solve. }
  all: handler_cases; tornDown_solve.
Qed.

Lemma tornDown_cleanup (w : World) : tornDown w (cleanup w).
Proof.
  unfold tornDown, cleanup, clearTimers, ifTimer, WebSocket_close.
  cbv beta iota zeta. repeat (break_match; cbv beta iota zeta);
    proj_simpl; repeat split; rewrite ?length_replaceNth; try reflexivity;
    repeat first [ apply incl_refl | apply incl_filter
                 | eapply incl_tran; [ apply incl_filter | ] ].
Qed.

(** C6: a close event on a socket while [teardown] is unset schedules
    exactly one timeout, of 1200 ms, remembered in [reconnectTimer], and
    creates no socket itself; when that timeout fires, [connect] opens one
    new socket.  A close event while [teardown] is set schedules nothing.
    From the cleanup on, whatever events follow, [teardown] stays set, no
    socket is created and no timeout is added. *)
Theorem C6_one_reconnect_and_none_after_teardown :
  (forall r k w,
      teardown w = false -> closable k (sockets w) = true ->
      timeouts (step' r (SocketClosed k) w)
      = timeouts w ++ [(S (timerIds w), 1200)]
      /\ reconnectTimer (step' r (SocketClosed k) w) = Some (S (timerIds w))
      /\ length (sockets (step' r (SocketClosed k) w)) = length (sockets w)
      /\ forall r',
          sockets (step' r' (TimerFired (S (timerIds w)))
                         (step' r (SocketClosed k) w))
          = sockets (step' r (SocketClosed k) w) ++ [CONNECTING])
  /\ (forall r k w,
         teardown w = true ->
         timeouts (step' r (SocketClosed k) w) = timeouts w
         /\ length (sockets (step' r (SocketClosed k) w)) = length (sockets w))
  /\ (forall w evs,
         teardown (run' evs (cleanup w)) = true
         /\ length (sockets (run' evs (cleanup w))) = length (sockets w)
         /\ incl (timeouts (run' evs (cleanup w))) (timeouts w)).
Proof.
  split; [ | split ].
  - intros r k w Ht Hc. unfold closable in Hc.
    assert (Hstep : step' r (SocketClosed k) w
                    = onclose toLocaleTimeString r
                              (setSockets (replaceNth k CLOSED (sockets w)) w)).
    { cbn [step]. destruct (nth_error (sockets w) k) as [[ | | | ] | ];
        try reflexivity; discriminate. }
    rewrite Hstep. clear Hstep Hc.
    assert (Hfire : forall l r' w1,
               teardown w1 = false ->
               timeouts w1 = l ++ [(S (timerIds w), 1200)] ->
               sockets (step' r' (TimerFired (S (timerIds w))) w1)
               = sockets w1 ++ [CONNECTING]).
    { intros l r' w1 Ht1 Hl. cbn [step]. rewrite Hl, isPending_last.
      unfold connect, newWebSocket. proj_simpl. rewrite Ht1. reflexivity. }
    unfold onclose, ifTimer, setTimeout. cbv beta iota zeta. proj_simpl.
    destruct (keepaliveTimer w) as [[ | t] | ]; proj_simpl;
      rewrite Ht; cbn [negb]; proj_simpl;
      (repeat split; [ now rewrite length_replaceNth | ]);
      intros r'; eapply Hfire; proj_simpl; solve [ eassumption | reflexivity ].
  - intros r k w Ht. cbn [step].
    destruct (nth_error (sockets w) k) as [[ | | | ] | ]; try (split; reflexivity);
      unfold onclose, ifTimer; cbv beta iota zeta; proj_simpl;
      destruct (keepaliveTimer w) as [[ | t] | ]; proj_simpl; rewrite Ht;
      cbn [negb]; proj_simpl; split; try reflexivity; apply length_replaceNth.
  - intros w evs.
    apply (run_invariant (tornDown w)).
    + intros r e w'. apply tornDown_step.
    + apply tornDown_cleanup.
Qed.

(** *** More about the actions *)



(** *** What an event does to the state *)

Lemma resume_ui (r : Readings) (p : Pending) (o : Settlement) (s s' : State)
      (next : option Pending) :
  resume' r p o s = (s', next) ->
  (snapshot s' = snapshot s
   \/ (exists payload,
          snapshot s'
          = (nextVoice payload, nextHaptic payload, nextDetections toLowerCase payload))
   \/ (exists c, p = HapticJson c /\ snapshot s' = (voicePrompt s, c, detections s)))
  /\ (eventLog s' = eventLog s
      \/ exists entry, eventLog s' = firstn MAX_LOG_ENTRIES (entry :: eventLog s)).
Proof.
  destruct p, o; unfold resume, release; intros H;
    repeat break_match; pair_eq;
    (split;
     [ first [ left; reflexivity
             | right; left; eexists; reflexivity
             | right; right; eexists; split; reflexivity ]
     | first [ left; reflexivity | right; eexists; reflexivity ] ]).
Qed.

Lemma step_ui (r : Readings) (e : Event) (w : World) :
  (snapshot (ui (step' r e w)) = snapshot (ui w)
   \/ (exists payload,
          snapshot (ui (step' r e w))
          = (nextVoice payload, nextHaptic payload, nextDetections toLowerCase payload))
   \/ (exists c, In (HapticJson c) (tasks w)
                 /\ snapshot (ui (step' r e w))
                    = (voicePrompt (ui w), c, detections (ui w))))
  /\ (eventLog (ui (step' r e w)) = eventLog (ui w)
      \/ exists entry,
          eventLog (ui (step' r e w))
          = firstn MAX_LOG_ENTRIES (entry :: eventLog (ui w))).
Proof.
  destruct e.
  8: { cbn [step]. unfold settle.
       destruct (nth_error (tasks w) i) as [p | ] eqn:Hp;
         [ | split; left; reflexivity ].
       destruct (resume' r p o (ui w)) as [s' next] eqn:E.
       apply resume_ui in E. destruct E as [Hsnap Hlog].
       assert (Hin : forall c, p = HapticJson c -> In (HapticJson c) (tasks w)).
       { intros c ->. eapply nth_error_In; eassumption. }
       destruct next; proj_simpl; (split; [ | exact Hlog ]);
         (destruct Hsnap as [Hs | [Hs | [c [Hc Hs]]]];
          [ now left | now right; left | right; right; exists c; auto ]). }
  7: { cbn [step]. unfold click.
       destruct (disabled w); [ split; left; reflexivity | ].
       destruct b; cbn [onClick];
         unfold handleAnalyzeNow, handleHapticPulse, handleSpeakPrompt, speakText;
         try (destruct (trim (voicePrompt (ui w))) as [ | c text] eqn:Htrim;
              [ | destruct (encodeURIComponent (c :: text)) ]);
         (split; [ left; reflexivity | ]);
         solve [ left; reflexivity | right; eexists; reflexivity ]. }
  all: handler_cases;
    (split;
     [ first [ left; reflexivity | right; left; eexists; reflexivity ]
     | first [ left; reflexivity | right; eexists; reflexivity ] ]).
Qed.

(** *** Invariants of the state *)

Lemma trim_nextVoice_fixed (payload : Payload.t) :
  trim (nextVoice payload) = nextVoice payload.
Proof.
  unfold nextVoice. destruct (Payload.voice_prompt payload) as [v | ];
    [ | reflexivity ].
  destruct (trim v) as [ | c t] eqn:E; [ reflexivity | ].
  rewrite <- E. apply trim_idempotent.
Qed.

Lemma meterValue_nextHaptic (payload : Payload.t) : meterValue (nextHaptic payload).
Proof.
  destruct (Payload.haptic_intensity payload) as [[ | | | q] | ] eqn:E;
    try (right; apply nextHaptic_in_range; rewrite E; discriminate).
  left. unfold nextHaptic. now rewrite E.
Qed.

Lemma validDetection_normalizeDetection (det : Raw.t) (d : Detection) :
  normalizeDetection toLowerCase det = Some d -> validDetection d.
Proof.
  unfold normalizeDetection.
  destruct (normalizeBox (Raw.box det)) as [b | ] eqn:E; [ | discriminate ].
  intros H; inversion H; subst; clear H.
  apply normalizeBox_keptAs in E.
  destruct E as (v1 & v2 & v3 & v4 & ymin & xmin & ymax & xmax
                 & _ & E1 & E2 & E3 & E4 & Hy & Hx & ->).
  apply roundClamp_range in E1, E2, E3, E4; try lia.
  exists ymin, xmin, ymax, xmax. cbn [box]. repeat split; lia.
Qed.

Lemma validDetection_nextDetections (payload : Payload.t) :
  Forall validDetection (nextDetections toLowerCase payload).
Proof.
  unfold nextDetections.
  induction (match Payload.detections payload with Some l => l | None => [] end)
    as [ | det l IH]; cbn [map filterNonNull]; [ constructor | ].
  destruct (normalizeDetection toLowerCase det) as [d | ] eqn:E; [ | exact IH ].
  constructor; [ | exact IH ]. eapply validDetection_normalizeDetection, E.
Qed.

(** A handler that goes on keeps the token it holds. *)
Lemma holds_continues (r : Readings) (p p' : Pending) (o : Settlement)
      (s s' : State) (token : option jsstring) :
  resume' r p o s = (s', Some p') -> holds p token -> holds p' token.
Proof.
  destruct p, o; unfold resume, release; intros H;
    repeat break_match; pair_eq; try discriminate; auto.
Qed.

Lemma lockOK_step (r : Readings) (e : Event) (w : World) :
  lockOK w -> lockOK (step' r e w).
Proof.
  intros Hl. pose proof (step_leaves_gate r e w) as Hframe.
  unfold lockOK in *.
  destruct e;
    lazymatch type of Hframe with
    | True => idtac
    | _ => destruct Hframe as [-> ->]; exact Hl
    end.
  - (* a click *)
    cbn [step]. unfold click, disabled.
    destruct (actionBusy (ui w)) as [token | ] eqn:Hbusy;
      [ rewrite Hbusy; exact Hl | ].
    destruct (tasks w) as [ | p [ | p2 l]] eqn:Ht; [ | | contradiction ].
    + destruct b; cbn [onClick];
        unfold handleAnalyzeNow, handleHapticPulse, handleSpeakPrompt, speakText;
        try (destruct (trim (voicePrompt (ui w))) as [ | c text] eqn:Htrim;
             [ | destruct (encodeURIComponent (c :: text)) ]);
        proj_simpl; rewrite ?Hbusy, ?Ht; cbn [app holds];
        solve [ reflexivity | left; split; reflexivity | right; split; reflexivity ].
    + destruct p; cbn [holds] in Hl; intuition discriminate.
  - (* a settlement *)
    cbn [step]. unfold settle.
    destruct (tasks w) as [ | p [ | p2 l]] eqn:Ht; [ | | contradiction ].
    + destruct i; cbn [nth_error]; rewrite Ht; exact Hl.
    + destruct i as [ | i]; cbn [nth_error];
        [ | destruct i; cbn [nth_error]; rewrite Ht; exact Hl ].
      destruct (resume' r p o (ui w)) as [s' [p' | ]] eqn:E; proj_simpl;
        rewrite Ht; cbn [replaceNth removeNth].
      * pose proof (holds_continues _ _ _ _ _ _ _ E Hl) as Hh.
        apply resume_continues in E. destruct E as [-> _]. exact Hh.
      * apply resume_finishes in E. now destruct E.
Qed.

Lemma lockOK_reachable (w : World) : reachable' w -> lockOK w.
Proof.
  intros [evs ->]. apply (run_invariant lockOK).
  - intros r e w. apply lockOK_step.
  - reflexivity.
Qed.

Lemma stateOK_step (r : Readings) (e : Event) (w : World) :
  lockOK w /\ stateOK (ui w) ->
  lockOK (step' r e w) /\ stateOK (ui (step' r e w)).
Proof.
  intros [Hl (Hv & Hm & Hd & Hn)]. split; [ now apply lockOK_step | ].
  destruct (step_ui r e w) as [Hsnap Hlog].
  assert (Hlen : (length (eventLog (ui (step' r e w))) <= MAX_LOG_ENTRIES)%nat).
  { destruct Hlog as [-> | [entry ->]]; [ exact Hn | apply firstn_le_length ]. }
  unfold snapshot in Hsnap.
  destruct Hsnap as [Hs | [[payload Hs] | [c [Hin Hs]]]];
    inversion Hs as [[Hs1 Hs2 Hs3]]; unfold stateOK;
    rewrite Hs1, Hs2, Hs3.
  - auto.
  - repeat split; [ apply trim_nextVoice_fixed | apply meterValue_nextHaptic
                  | apply validDetection_nextDetections | exact Hlen ].
  - repeat split; try assumption.
    unfold lockOK in Hl.
    destruct (tasks w) as [ | p [ | p2 l]]; [ contradiction | | contradiction ].
    destruct Hin as [Hp | []]. subst p. cbn [holds] in Hl.
    right. destruct Hl as [[-> _] | [-> _]]; eexists; (split; [ reflexivity | lia ]).
Qed.

(** X6: in every state the page reaches, the prompt carries no white space
    at either end, the haptic intensity is [NaN] or an integer of 0..255
    (never a fraction, an infinity or a value out of range), every
    detection has integer corners on the 0..1000 grid with a positive height
    and width, and the log holds at most 80 entries. *)
Theorem X6_reachable_state_well_formed (w : World) :
  reachable' w -> stateOK (ui w).
Proof.
  intros [evs ->].
  apply (run_invariant (fun w => lockOK w /\ stateOK (ui w))).
  - intros r e w. apply stateOK_step.
  - split; [ reflexivity | ].
    repeat split; [ right | constructor | cbn; lia ].
    exists 0. split; [ reflexivity | lia ].
Qed.

(** *** The stream session *)

Lemma nth_error_newest (k : nat) (st : ReadyState) :
  nth_error (repeat CLOSED k ++ [st]) k = Some st.
Proof.
  rewrite <- (repeat_length CLOSED k) at 2. apply nth_error_last.
Qed.

Lemma nth_error_older (j k : nat) (st : ReadyState) :
  j <> k ->
  nth_error (repeat CLOSED k ++ [st]) j = Some CLOSED
  \/ nth_error (repeat CLOSED k ++ [st]) j = None.
Proof.
  intros Hne. destruct (Nat.lt_ge_cases j k) as [Hlt | Hge].
  - left. rewrite nth_error_app1 by (rewrite repeat_length; exact Hlt).
    apply nth_error_repeat. exact Hlt.
  - right. apply nth_error_None. rewrite length_app, repeat_length. cbn. lia.
Qed.

Lemma replaceNth_newest (k : nat) (st st' : ReadyState) :
  replaceNth k st' (repeat CLOSED k ++ [st]) = repeat CLOSED k ++ [st'].
Proof.
  rewrite <- (repeat_length CLOSED k) at 1. apply replaceNth_last.
Qed.

Lemma session_ext (w w' : World) :
  sessionView w' = sessionView w -> session w -> session w'.
Proof.
  unfold sessionView, session. intros H; inversion H as [[H1 H2 H3 H4 H5 H6 H7 H8]].
  now rewrite H1, H2, H3, H4, H5, H6, H7, H8.
Qed.

(** Messages, clicks, settlements and the video leave the session alone. *)
Lemma step_sessionView (r : Readings) (e : Event) (w : World) :
  match e with
  | SocketMessage _ _ | Clicked _ | Settled _ _ | VideoLoaded | VideoFailed =>
      sessionView (step' r e w) = sessionView w
  | _ => True
  end.
Proof.
  destruct e; try exact I.
  - handler_cases; reflexivity.
  - cbn [step]. unfold click.
    destruct (disabled w); [ reflexivity | ].
    destruct b; cbn [onClick];
      unfold handleAnalyzeNow, handleHapticPulse, handleSpeakPrompt, speakText;
      try (destruct (trim (voicePrompt (ui w))) as [ | c text] eqn:Htrim;
           [ | destruct (encodeURIComponent (c :: text)) ]);
      reflexivity.
  - cbn [step]. unfold settle.
    destruct (nth_error (tasks w) i) as [p | ]; [ | reflexivity ].
    destruct (resume' r p o (ui w)) as [s' next] eqn:E.
    assert (Hc : connected s' = connected (ui w)).
    { destruct p, o; unfold resume, release in E;
        repeat break_match; pair_eq; reflexivity. }
    unfold sessionView. destruct next; proj_simpl; now rewrite Hc.
  - reflexivity.
  - reflexivity.
Qed.

Lemma withoutTimer_single (t : nat) (d : Z) : withoutTimer t [(t, d)] = [].
Proof. unfold withoutTimer. cbn [filter fst]. now rewrite Nat.eqb_refl. Qed.

Lemma withoutTimer_nil (t : nat) : withoutTimer t [] = [].
Proof. reflexivity. Qed.

Lemma sessionView_keepaliveTick (w : World) :
  sessionView (keepaliveTick w) = sessionView w.
Proof. unfold keepaliveTick. repeat break_match; reflexivity. Qed.

(** Rewrites the fields of the session with what is known of them. *)
Ltac rewrite_fields :=
  repeat match goal with
         | H : teardown ?w = _ |- context [teardown ?w] => rewrite H
         | H : socket ?w = _ |- context [socket ?w] => rewrite H
         | H : sockets ?w = _ |- context [sockets ?w] => rewrite H
         | H : timeouts ?w = _ |- context [timeouts ?w] => rewrite H
         | H : intervals ?w = _ |- context [intervals ?w] => rewrite H
         | H : keepaliveTimer ?w = _ |- context [keepaliveTimer ?w] => rewrite H
         | H : reconnectTimer ?w = _ |- context [reconnectTimer ?w] => rewrite H
         end.

Ltac session_norm :=
  repeat (progress (proj_simpl; rewrite_fields; cbn [negb app];
                    rewrite ?withoutTimer_single, ?withoutTimer_nil,
                      ?nth_error_newest, ?replaceNth_newest)).

Ltac session_done :=
  repeat split; try eassumption; try reflexivity;
  try (eexists; split; reflexivity).

Lemma session_step (r : Readings) (e : Event) (w : World) :
  session w -> session (step' r e w).
Proof.
  intros Hw. pose proof (step_sessionView r e w) as Hview.
  destruct e as [j | j data | j | j | t | | b | i o | | ];
    try (eapply session_ext; [ exact Hview | exact Hw ]); clear Hview;
    pose proof Hw as (k & st & Hs & Hk & Hst).
  - (* the socket opens *)
    cbn [step]. rewrite Hs.
    destruct (Nat.eq_dec j k) as [-> | Hne];
      [ rewrite nth_error_newest
      | destruct (nth_error_older j k st Hne) as [-> | ->]; exact Hw ].
    destruct st; try exact Hw.
    destruct Hst as (Ht & Hc & Hto & Hi).
    exists k, OPEN. unfold onopen, setInterval. cbv beta iota zeta.
    session_norm. session_done.
  - (* the socket closes *)
    cbn [step]. rewrite Hs.
    destruct (Nat.eq_dec j k) as [-> | Hne];
      [ rewrite nth_error_newest
      | destruct (nth_error_older j k st Hne) as [-> | ->]; exact Hw ].
    destruct st; try exact Hw;
      exists k, CLOSED; unfold onclose, ifTimer, setTimeout;
      cbv beta iota zeta.
    + destruct Hst as (Ht & Hc & Hto & Hi).
      destruct (keepaliveTimer w) as [[ | t] | ] eqn:Hkt;
        session_norm; session_done.
    + destruct Hst as (Ht & Hc & Hto & t & Hi & Hkt).
      session_norm. session_done.
    + destruct Hst as (Hto & [Hi | (Ht & t & Hi & Hkt)]).
      * destruct (keepaliveTimer w) as [[ | t] | ] eqn:Hkt;
          destruct (teardown w) eqn:Ht; session_norm; session_done.
      * session_norm. session_done.
  - (* an error on the socket *)
    cbn [step]. rewrite Hs.
    destruct (Nat.eq_dec j k) as [-> | Hne];
      [ rewrite nth_error_newest
      | destruct (nth_error_older j k st Hne) as [-> | ->]; exact Hw ].
    destruct st; try exact Hw;
      unfold onerror, WebSocket_close; rewrite Hk, Hs, nth_error_newest;
      try exact Hw; exists k, CLOSING.
    + destruct Hst as (Ht & Hc & Hto & Hi). session_norm. session_done.
      now left.
    + destruct Hst as (Ht & Hc & Hto & t & Hi & Hkt). session_norm.
      session_done. right. session_done.
  - (* a timer fires *)
    cbn [step].
    destruct (isPending t (timeouts w)) eqn:Hp.
    + destruct st; try (destruct Hst as (? & ? & Hto & ?); rewrite Hto in Hp;
                        discriminate Hp);
        try (destruct Hst as (Hto & ?); rewrite Hto in Hp; discriminate Hp).
      destruct Hst as (Hc & Hi & Hto).
      destruct (teardown w) eqn:Ht; [ rewrite Hto in Hp; discriminate Hp | ].
      destruct Hto as (t0 & Hto & Hrt).
      assert (t = S t0) as ->.
      { rewrite Hto in Hp. cbn in Hp. rewrite orb_false_r in Hp.
        symmetry. now apply Nat.eqb_eq. }
      exists (S k), CONNECTING. unfold connect, newWebSocket.
      session_norm.
      rewrite length_app, repeat_length. cbn [length].
      replace (k + 1)%nat with (S k) by lia.
      rewrite <- repeat_cons. session_done.
    + destruct (isPending t (intervals w)); [ | exact Hw ].
      eapply session_ext; [ apply sessionView_keepaliveTick | exact Hw ].
  - (* the page unmounts *)
    unfold step, cleanup, clearTimers, ifTimer, WebSocket_close.
    cbv beta iota zeta.
    destruct st.
    + destruct Hst as (Ht & Hc & Hto & Hi). exists k, CLOSING.
      destruct (reconnectTimer w) as [[ | t1] | ] eqn:Hrt;
        destruct (keepaliveTimer w) as [[ | t2] | ] eqn:Hkt;
        session_norm; session_done; now left.
    + destruct Hst as (Ht & Hc & Hto & t & Hi & Hkt). exists k, CLOSING.
      destruct (reconnectTimer w) as [[ | t1] | ] eqn:Hrt;
        session_norm; session_done; now left.
    + destruct Hst as (Hto & [Hi | (Ht & t & Hi & Hkt)]); exists k, CLOSING.
      * destruct (reconnectTimer w) as [[ | t1] | ] eqn:Hrt;
          destruct (keepaliveTimer w) as [[ | t2] | ] eqn:Hkt;
          session_norm; session_done; now left.
      * destruct (reconnectTimer w) as [[ | t1] | ] eqn:Hrt;
          session_norm; session_done; now left.
    + destruct Hst as (Hc & Hi & Hto). exists k, CLOSED.
      destruct (teardown w) eqn:Ht.
      * destruct (reconnectTimer w) as [[ | t1] | ] eqn:Hrt;
          destruct (keepaliveTimer w) as [[ | t2] | ] eqn:Hkt;
          session_norm; session_done.
      * destruct Hto as (t & Hto & Hrt).
        destruct (keepaliveTimer w) as [[ | t2] | ] eqn:Hkt;
          session_norm; session_done.
Qed.

Lemma session_reachable (w : World) : reachable' w -> session w.
Proof.
  intros [evs ->]. apply (run_invariant session).
  - intros r e w. apply session_step.
  - exists 0%nat, CONNECTING. repeat split.
Qed.

(** X8: the page never holds two connections and, while mounted, never
    gives up: a socket that is not closed is the newest one and the one
    [socket] names, and unless [teardown] is set there is either such a
    socket with no reconnect pending, or no such socket and exactly one
    reconnect timeout pending. *)
Theorem X8_single_connection (w : World) :
  reachable' w ->
  (forall j st,
      nth_error (sockets w) j = Some st -> st <> CLOSED ->
      socket w = Some j /\ S j = length (sockets w))
  /\ (teardown w = false ->
      (closable (length (sockets w) - 1) (sockets w) = true /\ timeouts w = [])
      \/ (closable (length (sockets w) - 1) (sockets w) = false
          /\ exists t, timeouts w = [(t, 1200)])).
Proof.
  intros Hr. destruct (session_reachable w Hr) as (k & st & Hs & Hk & Hst).
  assert (Hlen : length (sockets w) = S k).
  { rewrite Hs, length_app, repeat_length. cbn. lia. }
  split.
  - intros j st' Hj Hne. rewrite Hs in Hj.
    destruct (Nat.eq_dec j k) as [-> | Hjk]; [ now rewrite Hlen | ].
    destruct (nth_error_older j k st Hjk) as [H | H]; rewrite H in Hj;
      [ inversion Hj; subst; contradiction | discriminate ].
  - intros Ht. unfold closable. rewrite Hlen. cbn [Nat.sub].
    rewrite Nat.sub_0_r, Hs, nth_error_newest.
    destruct st.
    + left. split; [ reflexivity | ]. now destruct Hst as (_ & _ & Hto & _).
    + left. split; [ reflexivity | ]. now destruct Hst as (_ & _ & Hto & _).
    + left. split; [ reflexivity | ]. now destruct Hst as (Hto & _).
    + right. split; [ reflexivity | ]. destruct Hst as (_ & _ & Hto).
      rewrite Ht in Hto. destruct Hto as (t & Hto & _). eauto.
Qed.

(** Only a keepalive tick sends a frame. *)
Lemma sent_step (r : Readings) (e : Event) (w : World) :
  sent (step' r e w) = sent w
  \/ exists t, e = TimerFired t /\ isPending t (intervals w) = true.
Proof.
  destruct e.
  5: { cbn [step]. destruct (isPending t (timeouts w)).
       - left. unfold connect, newWebSocket. proj_simpl.
         destruct (teardown w); reflexivity.
       - destruct (isPending t (intervals w)) eqn:Hp; [ right; eauto | now left ]. }
  7: { left. cbn [step]. unfold settle.
       destruct (nth_error (tasks w) i) as [p | ]; [ | reflexivity ].
       destruct (resume' r p o (ui w)) as [s' [p' | ]]; reflexivity. }
  6: { left. cbn [step]. unfold click.
       destruct (disabled w); [ reflexivity | ].
       destruct b; cbn [onClick];
         unfold handleAnalyzeNow, handleHapticPulse, handleSpeakPrompt, speakText;
         try (destruct (trim (voicePrompt (ui w))) as [ | c text] eqn:Htrim;
              [ | destruct (encodeURIComponent (c :: text)) ]);
         reflexivity. }
  all: left; handler_cases; reflexivity.
Qed.

(** Since [w0], the page is torn down, its session is in a phase and
    nothing has been sent. *)
Lemma quiet_step (w0 : World) (r : Readings) (e : Event) (w : World) :
  session w /\ tornDown w0 w /\ sent w = sent w0 ->
  session (step' r e w) /\ tornDown w0 (step' r e w) /\ sent (step' r e w) = sent w0.
Proof.
  intros (Hs & Ht & Hsent).
  split; [ now apply session_step | ]. split; [ now apply tornDown_step | ].
  destruct (sent_step r e w) as [-> | (t & -> & Hp)]; [ exact Hsent | ].
  exfalso. destruct Ht as (Htd & _).
  destruct Hs as (k & st & _ & _ & Hst).
  destruct st.
  - destruct Hst as (Hf & _). congruence.
  - destruct Hst as (Hf & _). congruence.
  - destruct Hst as (_ & [Hi | (Hf & _)]); [ | congruence ].
    rewrite Hi in Hp. discriminate Hp.
  - destruct Hst as (_ & Hi & _). rewrite Hi in Hp. discriminate Hp.
Qed.

(** X10: after the cleanup of a state the page has reached, whatever
    events follow: no timeout and no interval is left, no frame is sent any
    more, and no socket is connecting or open. *)
Theorem X10_quiet_after_unmount (w : World) (evs : list (Readings * Event)) :
  reachable' w ->
  timeouts (run' evs (cleanup w)) = []
  /\ intervals (run' evs (cleanup w)) = []
  /\ sent (run' evs (cleanup w)) = sent w
  /\ forall j st,
      nth_error (sockets (run' evs (cleanup w))) j = Some st ->
      st = CLOSING \/ st = CLOSED.
Proof.
  intros Hr.
  assert (Hq : session (run' evs (cleanup w))
               /\ tornDown (cleanup w) (run' evs (cleanup w))
               /\ sent (run' evs (cleanup w)) = sent (cleanup w)).
  { apply (run_invariant
             (fun w' => session w' /\ tornDown (cleanup w) w'
                        /\ sent w' = sent (cleanup w))).
    - intros r e w'. apply quiet_step.
    - split; [ | split; [ | reflexivity ] ].
      + apply (session_step (mkReadings 0 0) Unmounted w).
        now apply session_reachable.
      + destruct (tornDown_cleanup w) as (Ht & _).
        repeat split; [ exact Ht | apply incl_refl ]. }
  destruct Hq as (Hs & (Htd & _) & Hsent).
  assert (Hsent0 : sent (cleanup w) = sent w).
  { unfold cleanup, clearTimers, ifTimer, WebSocket_close. cbv beta iota zeta.
    repeat break_match; reflexivity. }
  rewrite Hsent0 in Hsent.
  destruct Hs as (k & st & Hsk & _ & Hst).
  assert (Hshape : (st = CLOSING \/ st = CLOSED)
                   /\ timeouts (run' evs (cleanup w)) = []
                   /\ intervals (run' evs (cleanup w)) = []).
  { destruct st.
    - destruct Hst as (Hf & _). congruence.
    - destruct Hst as (Hf & _). congruence.
    - destruct Hst as (Hto & [Hi | (Hf & _)]); [ auto | congruence ].
    - destruct Hst as (_ & Hi & Hto). rewrite Htd in Hto. auto. }
  destruct Hshape as (Hst' & Hto & Hi).
  repeat split; try assumption.
  intros j st' Hj. rewrite Hsk in Hj.
  destruct (Nat.eq_dec j k) as [-> | Hjk].
  - rewrite nth_error_newest in Hj. inversion Hj; subst. exact Hst'.
  - destruct (nth_error_older j k st Hjk) as [H | H]; rewrite H in Hj;
      [ inversion Hj; now right | discriminate ].
Qed.

End Facts.

(** ** The claims on concrete runs *)




Lemma C6_one_reconnect_and_none_after_teardown_witness :
  timeouts (sampleRun [SocketOpened 0; SocketClosed 0]) = [(2%nat, 1200)]
  /\ reconnectTimer (sampleRun [SocketOpened 0; SocketClosed 0]) = Some 2%nat
  /\ length (sockets (sampleRun [SocketOpened 0; SocketClosed 0])) = 1%nat
  /\ forall r',
      sockets (step Sample.toLowerCase Sample.toLocaleTimeString
                    Sample.fractionToString Sample.JSON_parse
                    Sample.encodeURIComponent r' (TimerFired 2)
                    (sampleRun [SocketOpened 0; SocketClosed 0]))
      = sockets (sampleRun [SocketOpened 0; SocketClosed 0]) ++ [CONNECTING].
Proof.
  apply (proj1 (C6_one_reconnect_and_none_after_teardown
                  Sample.toLowerCase Sample.toLocaleTimeString
                  Sample.fractionToString Sample.JSON_parse
                  Sample.encodeURIComponent)
           Sample.readings 0%nat (sampleRun [SocketOpened 0]));
    reflexivity.
Defined.

Lemma C7_event_log_bounded_newest_first_witness :
  eventLog (appendAll (Earlier.addLog Sample.toLocaleTimeString)
                      ((Sample.readings, str "0", None) :: sampleCalls 60)
                      initialState)
  = rev (map (fun c => newEntry Sample.toLocaleTimeString
                                (fst (fst c)) (snd (fst c)) (snd c))
             (sampleCalls 60)).
Proof.
  apply (proj2 (proj2 (proj2 (proj2 (proj2 (C7_event_log_bounded_newest_first
                                              Sample.toLocaleTimeString)))))
           (Sample.readings, str "0", None) (sampleCalls 60) initialState).
  reflexivity.
Defined.


Lemma C9_prompt_never_blank_witness :
  trim (voicePrompt (ui mounted)) <> []
  /\ (forall r,
         handleSpeakPrompt Sample.toLocaleTimeString Sample.encodeURIComponent r mounted
         = speakText Sample.toLocaleTimeString Sample.encodeURIComponent r
                     (trim (voicePrompt (ui mounted))) mounted)
  /\ (forall r query,
         Sample.encodeURIComponent (trim (voicePrompt (ui mounted))) = Normal query ->
         actionBusy (ui (handleSpeakPrompt Sample.toLocaleTimeString
                                           Sample.encodeURIComponent r mounted))
         = Some (str "speak")
         /\ requests (handleSpeakPrompt Sample.toLocaleTimeString
                                        Sample.encodeURIComponent r mounted)
            = requests mounted ++ [Tts query]
         /\ tasks (handleSpeakPrompt Sample.toLocaleTimeString
                                     Sample.encodeURIComponent r mounted)
            = tasks mounted ++ [SpeakFetch]).
Proof.
  apply (C9_prompt_never_blank
           Sample.toLowerCase Sample.toLocaleTimeString Sample.fractionToString
           Sample.JSON_parse Sample.encodeURIComponent mounted).
  exists []. reflexivity.
Defined.


Example analyze_non_success_releases :
  let w := sampleRun [Clicked AnalyzeNow; Settled 0 (Responded 500)] in
  actionBusy (ui w) = None /\ tasks w = []
  /\ map text (eventLog (ui w)) = [str "Analyze failed (500)"]
  /\ snapshot (ui w) = snapshot initialState.
Proof. repeat split. Qed.

Example analyze_rejection_releases :
  let w := sampleRun [Clicked AnalyzeNow; Settled 0 (Rejected OtherValue)] in
  actionBusy (ui w) = None /\ tasks w = []
  /\ map text (eventLog (ui w)) = [str "Analyze request failed"].
Proof. repeat split. Qed.

Example analyze_success_applies_payload :
  let w := sampleRun [Clicked AnalyzeNow; Settled 0 (Responded 200);
                      Settled 0 (AnalyzeBody scenarioPayload)] in
  actionBusy (ui w) = None /\ tasks w = []
  /\ snapshot (ui w) = (str "Path is clear", num 255, [])
  /\ map text (eventLog (ui w)) = [str "manual analyze: Path is clear | haptic=255"].
Proof. repeat split. Qed.

Example speak_no_content_releases :
  let w := sampleRun [Clicked SpeakPrompt; Settled 0 (Responded 204)] in
  actionBusy (ui w) = None /\ tasks w = []
  /\ map text (eventLog (ui w)) = [str "TTS returned no audio (check ElevenLabs key)"].
Proof. repeat split. Qed.

Example speak_playback_refused_releases :
  let w := sampleRun [Clicked SpeakPrompt; Settled 0 (Responded 200);
                      Settled 0 BlobRead;
                      Settled 0 (Rejected (ErrorObject (str "play() refused")))] in
  actionBusy (ui w) = None /\ tasks w = []
  /\ map text (eventLog (ui w)) = [str "play() refused"].
Proof. repeat split. Qed.

Example max_alert_success :
  let w := sampleRun [Clicked MaxAlert; Settled 0 (Responded 200);
                      Settled 0 (HapticBody None None)] in
  actionBusy (ui w) = None
  /\ hapticIntensity (ui w) = num 220
  /\ requests w = [HapticSend (num 220)]
  /\ map text (eventLog (ui w)) = [str "Haptic pulse 220"].
Proof. repeat split. Qed.

Example unencodable_prompt_releases :
  let w := sampleRun [Clicked AnalyzeNow; Settled 0 (Responded 200);
                      Settled 0 (AnalyzeBody
                                   (Payload.mk (Some [55296%N]) None None None));
                      Clicked SpeakPrompt] in
  voicePrompt (ui w) = [55296%N]
  /\ actionBusy (ui w) = None /\ tasks w = []
  /\ requests w = [AnalyzeCurrent]
  /\ map text (firstn 1 (eventLog (ui w))) = [str "URI malformed"].
Proof. repeat split. Qed.

Example pulse_300_locks_as_haptic_255 :
  actionBusy (ui (handleHapticPulse Sample.fractionToString (num 300) mounted))
  = Some (str "haptic-255").
Proof. reflexivity. Qed.

Example click_while_busy_is_ignored :
  sampleRun [Clicked AnalyzeNow; Clicked MaxAlert] = sampleRun [Clicked AnalyzeNow].
Proof. reflexivity. Qed.

Example close_schedules_one_reconnect :
  let w := sampleRun [SocketOpened 0; SocketClosed 0] in
  timeouts w = [(2%nat, 1200)] /\ sockets w = [CLOSED]
  /\ connected (ui w) = false /\ intervals w = []
  /\ sockets (sampleRun [SocketOpened 0; SocketClosed 0; TimerFired 2])
     = [CLOSED; CONNECTING].
Proof. repeat split. Qed.

Example late_close_after_unmount :
  let w := sampleRun [SocketOpened 0; Unmounted; SocketClosed 0; TimerFired 2] in
  timeouts w = [] /\ sockets w = [CLOSED] /\ teardown w = true.
Proof. repeat split. Qed.

Example undecodable_message :
  let w := sampleRun [SocketOpened 0; SocketMessage 0 (str "not json")] in
  snapshot (ui w) = snapshot initialState
  /\ map text (eventLog (ui w))
     = [str "Invalid websocket payload"; str "WebSocket connected"].
Proof. repeat split. Qed.

(** ** The URLs and the sketch *)

Lemma dropSlashes_split (s : jsstring) :
  exists n, s = repeat 47%N n ++ dropSlashes s.
Proof.
  induction s as [ | c s [n IH]]; [ now exists 0%nat | ].
  cbn [dropSlashes]. destruct (N.eqb_spec c 47) as [-> | Hc].
  - exists (S n). cbn [repeat app]. now f_equal.
  - now exists 0%nat.
Qed.

Lemma dropSlashes_head (s : jsstring) :
  match dropSlashes s with
  | c :: _ => (c =? 47)%N = false
  | [] => True
  end.
Proof.
  induction s as [ | c s IH]; [ exact I | ].
  cbn [dropSlashes]. destruct (c =? 47)%N eqn:E; [ exact IH | exact E ].
Qed.

Lemma rev_repeat (c : N) (n : nat) : rev (repeat c n) = repeat c n.
Proof.
  induction n as [ | n IH]; [ reflexivity | ].
  cbn [repeat rev]. rewrite IH. symmetry. apply repeat_cons.
Qed.

(** X11: the API base never ends with a slash, so the paths appended to
    it join with a single one; a configured base is the trimmed variable
    with nothing but its trailing slashes removed. *)
Theorem X11_api_base_has_no_trailing_slash :
  (forall env location, endsWith 47 (apiBaseUrl env location) = false)
  /\ (forall e location,
         trim e <> [] ->
         exists n, trim e = apiBaseUrl (Some e) location ++ repeat 47%N n).
Proof.
  split.
  - intros env location. unfold apiBaseUrl, endsWith.
    destruct (option_map trim env) as [[ | c b] | ].
    2: { unfold stripTrailingSlashes. rewrite rev_involutive.
         pose proof (dropSlashes_head (rev (c :: b))) as H.
         destruct (dropSlashes (rev (c :: b))); [ reflexivity | exact H ]. }
    all: rewrite !rev_app_distr; reflexivity.
  - intros e location He. unfold apiBaseUrl. cbn [option_map].
    destruct (trim e) as [ | c b]; [ congruence | ].
    unfold stripTrailingSlashes.
    destruct (dropSlashes_split (rev (c :: b))) as [n Hn].
    exists n. rewrite <- (rev_involutive (c :: b)) at 1.
    rewrite Hn at 1. now rewrite rev_app_distr, rev_repeat.
Qed.

(** X12: when no base is configured, the stream URL takes the scheme of
    the page, [wss:] for a page served over [https:] and [ws:] for any
    other, and the video URL [https:] or [http:]; both name the host of the
    page, or 127.0.0.1 when it has none, on port 8000. *)
Theorem X12_default_stream_urls (env : option jsstring) (location : Location) :
  noBase env ->
  let secure :=
    if list_eq_dec N.eq_dec (protocol location) (str "https:") then true else false in
  let host :=
    match hostname location with
    | [] => str "127.0.0.1"
    | h => h
    end in
  wsUrl (apiBaseUrl env location)
  = (if secure then str "wss:" else str "ws:")
      ++ str "//" ++ host ++ str ":8000/stream/ws"
  /\ videoUrl (apiBaseUrl env location)
     = (if secure then str "https:" else str "http:")
         ++ str "//" ++ host ++ str ":8000/stream/video".
Proof.
  intros Hb secure host. subst secure.
  assert (Hbase : apiBaseUrl env location
                  = (if list_eq_dec N.eq_dec (protocol location) (str "https:")
                     then str "https:" else str "http:")
                      ++ str "//" ++ host ++ str ":8000").
  { unfold apiBaseUrl. destruct env as [e | ]; cbn [option_map noBase] in *;
      [ rewrite Hb | ]; reflexivity. }
  rewrite Hbase. unfold wsUrl, videoUrl.
  destruct (list_eq_dec N.eq_dec (protocol location) (str "https:"));
    cbn [str list_ascii_of_string map app httpToWs]; cbn;
    rewrite <- ?app_assoc; split; reflexivity.
Qed.

(** X14: the sketch always writes the motor duty, whatever it was before:
    full (255) from 1 to 40 cm, medium (120) from 41 to 100 cm, and off
    beyond 100 cm or for a reading of zero or less; over the readings
    above zero, a nearer obstacle never gets a weaker vibration. *)
Theorem X14_sketch_zones :
  (forall previous distance,
      Sketch.hapticFeedback previous distance
      = if (1 <=? distance) && (distance <=? 40) then 255
        else if (41 <=? distance) && (distance <=? 100) then 120
        else 0)
  /\ (forall p1 p2 d1 d2,
         0 < d1 <= d2 ->
         Sketch.hapticFeedback p2 d2 <= Sketch.hapticFeedback p1 d1).
Proof.
  assert (H : forall previous distance,
             Sketch.hapticFeedback previous distance
             = if (1 <=? distance) && (distance <=? 40) then 255
               else if (41 <=? distance) && (distance <=? 100) then 120
               else 0).
  { intros previous distance. unfold Sketch.hapticFeedback.
    destruct (Z.gtb_spec distance 100), (Z.leb_spec distance 0),
      (Z.gtb_spec distance 40), (Z.leb_spec distance 100),
      (Z.leb_spec distance 40), (Z.leb_spec 1 distance),
      (Z.leb_spec 41 distance); cbn [orb andb]; try reflexivity; lia. }
  split; [ exact H | ].
  intros p1 p2 d1 d2 Hd. rewrite !H.
  destruct (Z.leb_spec 1 d1), (Z.leb_spec d1 40), (Z.leb_spec 41 d1),
    (Z.leb_spec d1 100), (Z.leb_spec 1 d2), (Z.leb_spec d2 40),
    (Z.leb_spec 41 d2), (Z.leb_spec d2 100); cbn [orb andb]; lia.
Qed.

(** ** The further properties on concrete runs *)



Lemma sampleRun_reachable (evs : list Event) :
  reachable Sample.toLowerCase Sample.toLocaleTimeString Sample.fractionToString
            Sample.JSON_parse Sample.encodeURIComponent (sampleRun evs).
Proof. exists (map (pair Sample.readings) evs). reflexivity. Defined.

Lemma X6_reachable_state_well_formed_witness :
  stateOK (ui (sampleRun [Clicked AnalyzeNow; Settled 0 (Responded 200);
                          Settled 0 (AnalyzeBody scenarioPayload)])).
Proof.
  apply (X6_reachable_state_well_formed
           Sample.toLowerCase Sample.toLocaleTimeString Sample.fractionToString
           Sample.JSON_parse Sample.encodeURIComponent).
  apply sampleRun_reachable.
Defined.

Lemma X8_single_connection_witness :
  (forall j st,
      nth_error (sockets (sampleRun [SocketOpened 0; SocketClosed 0; TimerFired 2])) j
      = Some st ->
      st <> CLOSED ->
      socket (sampleRun [SocketOpened 0; SocketClosed 0; TimerFired 2]) = Some j
      /\ S j = 2%nat)
  /\ (teardown (sampleRun [SocketOpened 0; SocketClosed 0; TimerFired 2]) = false ->
      (closable 1 (sockets (sampleRun [SocketOpened 0; SocketClosed 0; TimerFired 2]))
       = true
       /\ timeouts (sampleRun [SocketOpened 0; SocketClosed 0; TimerFired 2]) = [])
      \/ (closable 1 (sockets (sampleRun [SocketOpened 0; SocketClosed 0; TimerFired 2]))
          = false
          /\ exists t,
              timeouts (sampleRun [SocketOpened 0; SocketClosed 0; TimerFired 2])
              = [(t, 1200)])).
Proof.
  apply (X8_single_connection
           Sample.toLowerCase Sample.toLocaleTimeString Sample.fractionToString
           Sample.JSON_parse Sample.encodeURIComponent
           (sampleRun [SocketOpened 0; SocketClosed 0; TimerFired 2])).
  apply sampleRun_reachable.
Defined.

Lemma X10_quiet_after_unmount_witness :
  timeouts (sampleRun [SocketOpened 0; Unmounted; TimerFired 1; SocketClosed 0]) = []
  /\ intervals (sampleRun [SocketOpened 0; Unmounted; TimerFired 1; SocketClosed 0]) = []
  /\ sent (sampleRun [SocketOpened 0; Unmounted; TimerFired 1; SocketClosed 0])
     = sent (sampleRun [SocketOpened 0])
  /\ forall j st,
      nth_error (sockets (sampleRun [SocketOpened 0; Unmounted; TimerFired 1;
                                     SocketClosed 0])) j = Some st ->
      st = CLOSING \/ st = CLOSED.
Proof.
  apply (X10_quiet_after_unmount
           Sample.toLowerCase Sample.toLocaleTimeString Sample.fractionToString
           Sample.JSON_parse Sample.encodeURIComponent
           (sampleRun [SocketOpened 0])
           (map (pair Sample.readings) [TimerFired 1; SocketClosed 0])).
  apply sampleRun_reachable.
Defined.

Lemma X11_api_base_has_no_trailing_slash_witness :
  exists n,
    trim (str " http://10.0.0.7:8000// ")
    = apiBaseUrl (Some (str " http://10.0.0.7:8000// ")) sampleLocation
        ++ repeat 47%N n.
Proof.
  apply (proj2 X11_api_base_has_no_trailing_slash
           (str " http://10.0.0.7:8000// ") sampleLocation).
  discriminate.
Defined.

Lemma X12_default_stream_urls_witness :
  wsUrl (apiBaseUrl None sampleLocation) = str "wss://cam.local:8000/stream/ws"
  /\ videoUrl (apiBaseUrl None sampleLocation)
     = str "https://cam.local:8000/stream/video".
Proof. exact (X12_default_stream_urls None sampleLocation I). Defined.

Lemma X14_sketch_zones_witness :
  Sketch.hapticFeedback 0 75 <= Sketch.hapticFeedback 255 30.
Proof. apply (proj2 X14_sketch_zones 255 0 30 75). lia. Defined.

Example configured_base :
  apiBaseUrl (Some (str " http://10.0.0.7:8000// ")) sampleLocation
  = str "http://10.0.0.7:8000"
  /\ wsUrl (str "HTTPS://cam.local") = str "wsS://cam.local/stream/ws"
  /\ wsUrl (str "cam.local:8000") = str "cam.local:8000/stream/ws"
  /\ portLabel sampleLocation = str "5173".
Proof. repeat split. Qed.

Example keepalive_pings_the_open_socket :
  sent (sampleRun [SocketOpened 0; TimerFired 1; TimerFired 1])
  = [(0%nat, str "ping"); (0%nat, str "ping")]
  /\ sent (sampleRun [SocketOpened 0; SocketErrored 0; TimerFired 1]) = [].
Proof. repeat split. Qed.
